(** * Bermuda BLE trilateration: a shallow embedding of the coordinator

    The development follows [custom_components/bermuda/coordinator.py] and
    [custom_components/bermuda/trilateration.py].

    Conventions of the embedding.
    - A Python [float] is an exact rational ([Qc], canonical fractions with
      Leibniz equality): rounding, infinities and NaN are not modelled.  The
      one float operation of these files that raises on overflow is [**],
      and it does in the model: a power too large for a double is an
      [OverflowError].  A Python [int] is a [Z].
    - A Python exception is a constructor of [exn]; a computation that may
      raise returns an [outcome].  Code that also mutates the coordinator is
      a function from the coordinator to an outcome and the coordinator it
      leaves behind, so what was written before a [raise] stays written.
    - A dict whose iteration order matters (the scanner contacts of a device,
      the obstruction map) is an association list in insertion order; the
      device table and the path-loss table are [gmap]s.
    - What the repository imports but does not define in these files (the
      constants of [const.py], numpy's least-squares solver, the C library
      behind [**] and [math.hypot], Home Assistant's area registry, methods
      of [BermudaDevice]) is a field of the classes [Consts] and [Platform]. *)

From Stdlib Require Import QArith Qcanon ZArith String Ascii.
From stdpp Require Import base option list gmap strings sorting.

(** ** Python values *)

Module Py.

Inductive exn : Set :=
| IndexError
| ValueError
| TypeError
| AttributeError
| KeyError
| ZeroDivisionError
| OverflowError
| AssertionError.

Inductive outcome (A : Type) : Type :=
| Return (a : A)
| Raise (e : exn).
Arguments Return {A} a.
Arguments Raise {A} e.

Definition bind {A B} (m : outcome A) (k : A → outcome B) : outcome B :=
  match m with
  | Return a => k a
  | Raise e => Raise e
  end.

(** [l[i]] on a Python list. *)
Definition index {A} (l : list A) (i : nat) : outcome A :=
  match l !! i with
  | Some a => Return a
  | None => Raise IndexError
  end.

(** [[f(x) for x in l]], stopping at the first exception. *)
Fixpoint comprehension {A B} (f : A → outcome B) (l : list A) : outcome (list B) :=
  match l with
  | [] => Return []
  | x :: l' =>
      bind (f x) (λ y, bind (comprehension f l') (λ ys, Return (y :: ys)))
  end.

(** [min(l, key=key)]: the first element whose key is smallest; an empty
    argument raises [ValueError]. *)
Fixpoint min_from {A} (key : A → Qc) (best : A) (l : list A) : A :=
  match l with
  | [] => best
  | x :: l' =>
      if bool_decide (key x < key best)%Qc then min_from key x l'
      else min_from key best l'
  end.

Definition min_by {A} (key : A → Qc) (l : list A) : outcome A :=
  match l with
  | [] => Raise ValueError
  | x :: l' => Return (min_from key x l')
  end.

(** A [for] loop that threads a value and stops at the first exception. *)
Fixpoint for_each {A B} (body : A → B → outcome A) (a : A) (l : list B)
    : outcome A :=
  match l with
  | [] => Return a
  | x :: l' => bind (body a x) (λ a', for_each body a' l')
  end.

(** [str(x)] of an optional string: [None] prints as its name. *)
Definition str_opt (x : option string) : string :=
  match x with
  | Some s => s
  | None => "None"
  end.

End Py.

Export Py.

Notation "'let!' x ':=' m 'in' k" := (Py.bind m (λ x, k))
  (at level 10, x name, m at level 100, k at level 200, only parsing).
Notation "'let!' ' pat ':=' m 'in' k" :=
  (Py.bind m (λ x, match x with pat => k end))
  (at level 10, pat pattern, m at level 100, k at level 200, only parsing).

(** ** Numbers *)

(** The decimal literal [n/d]. *)
Definition dec (n : Z) (d : positive) : Qc := Q2Qc (n # d).

(** Equality of two closed rationals, by computing both; and the refutation
    of an equality of two closed rationals that differ. *)
Ltac qc_compute := apply Qc_is_canon; vm_compute; reflexivity.
Ltac qc_differ :=
  let H := fresh in
  intros H; apply (f_equal this) in H; vm_compute in H; discriminate H.

(** [int(x)] of a float truncates towards zero. *)
Definition py_int (x : Qc) : Z := Z.quot (Qnum (this x)) (Zpos (Qden (this x))).

(** [x] to an integer power, exactly. *)
Definition Qc_zpow (x : Qc) (k : Z) : Qc :=
  match k with
  | Z0 => Q2Qc 1
  | Zpos p => Qcpower x (Pos.to_nat p)
  | Zneg p => Qcinv (Qcpower x (Pos.to_nat p))
  end.

(** The range of a float.  A real number of magnitude [2^1024 - 2^970] or
    more rounds to an infinity (it is at least half a unit in the last place
    above the largest double, [2^1024 - 2^971]); CPython turns an infinite
    result of [**] on finite operands into an [OverflowError]. *)
Definition float_limit : Qc := Qc_of_Z (2 ^ 1024 - 2 ^ 970).

Definition float_overflows (x : Qc) : bool :=
  bool_decide (float_limit ≤ x)%Qc || bool_decide (x ≤ - float_limit)%Qc.
Arguments float_overflows : simpl never.

(** [x ** 2] on a float: the square, unless it is out of range. *)
Definition float_square (x : Qc) : outcome Qc :=
  if float_overflows (x * x) then Raise OverflowError else Return (x * x)%Qc.

(** [min(a, b)] and [max(a, b)]: the first argument unless the second is
    strictly better. *)
Definition py_min (a b : Qc) : Qc := if bool_decide (b < a)%Qc then b else a.
Definition py_max (a b : Qc) : Qc := if bool_decide (a < b)%Qc then b else a.

(** [range(a, b)]. *)
Definition py_range (a b : Z) : list Z := seqZ a (b - a).

(** A scanner or device position.  The coordinator's comments speak of tuples
    [(x, y)]; numpy code needs arrays.  Both answer [p[0]] and [p[1]], only
    an array answers [p ** 2]. *)
Inductive position : Set :=
| PyTuple (x y : Qc)
| NdArray (x y : Qc).

Definition coord0 (p : position) : Qc :=
  match p with PyTuple x _ | NdArray x _ => x end.
Definition coord1 (p : position) : Qc :=
  match p with PyTuple _ y | NdArray _ y => y end.

(** [np.sum(p ** 2)]: a tuple has no [**]. *)
Definition sum_of_squares (p : position) : outcome Qc :=
  match p with
  | PyTuple _ _ => Raise TypeError
  | NdArray x y => Return (x * x + y * y)%Qc
  end.

(** ** Strings *)

(** [str.lower] and [str.upper] on ASCII text, the alphabet of addresses. *)
Definition lower_ascii (c : ascii) : ascii :=
  let n := nat_of_ascii c in
  if bool_decide (65 ≤ n ≤ 90)%nat then ascii_of_nat (n + 32) else c.

Definition upper_ascii (c : ascii) : ascii :=
  let n := nat_of_ascii c in
  if bool_decide (97 ≤ n ≤ 122)%nat then ascii_of_nat (n - 32) else c.

Fixpoint lower (s : string) : string :=
  match s with
  | EmptyString => EmptyString
  | String c s' => String (lower_ascii c) (lower s')
  end.

Fixpoint upper (s : string) : string :=
  match s with
  | EmptyString => EmptyString
  | String c s' => String (upper_ascii c) (upper s')
  end.

(** A character that is not a letter is the lower case of itself only. *)
Definition caseless (c : ascii) : Prop := ∀ c', lower_ascii c' = c ↔ c' = c.

(** [s.count(c)] and [s.replace(c, "")] for a one-character [c]. *)
Fixpoint count_char (c : ascii) (s : string) : nat :=
  match s with
  | EmptyString => 0
  | String c' s' => (if bool_decide (c' = c) then 1 else 0) + count_char c s'
  end.

Fixpoint remove_char (c : ascii) (s : string) : string :=
  match s with
  | EmptyString => EmptyString
  | String c' s' =>
      if bool_decide (c' = c) then remove_char c s' else String c' (remove_char c s')
  end.

(** [":".join(s[i : i + 2] for i in range(0, 12, 2))] on a string of twelve
    characters. *)
Definition colon_pairs (s : string) : string :=
  String.concat ":" ((λ i, String.substring i 2 s) <$> [0; 2; 4; 6; 8; 10]%nat).

(** Home Assistant's [format_mac], the function the coordinator imports: the
    colon, dash, dot and bare spellings of a MAC become the lower-case colon
    spelling, anything else is returned as it is.  [strip_separators] is the
    [if]/[elif] that takes the dashes or the dots out of [to_test]. *)
Definition strip_separators (mac : string) : string :=
  if bool_decide (String.length mac = 17 ∧ count_char "-" mac = 5)%nat
  then remove_char "-" mac
  else if bool_decide (String.length mac = 14 ∧ count_char "." mac = 2)%nat
  then remove_char "." mac
  else mac.

Definition format_mac_ha (mac : string) : string :=
  if bool_decide (String.length mac = 17 ∧ count_char ":" mac = 5)%nat
  then lower mac
  else
    let to_test := strip_separators mac in
    if bool_decide (String.length to_test = 12)%nat
    then colon_pairs (lower to_test)
    else mac.

(** ** Records *)

(** The address types of [const.py] that the coordinator tests for; every
    other type is [BDADDR_TYPE_OTHER]. *)
Inductive bdaddr_type : Set :=
| BDADDR_TYPE_NOT_MAC48
| BDADDR_TYPE_PRIVATE_RESOLVABLE
| BDADDR_TYPE_OTHER.

Global Instance bdaddr_type_eq_dec : EqDecision bdaddr_type.
Proof. solve_decision. Defined.

Inductive beacon_kind : Set :=
| BEACON_IBEACON_SOURCE
| BEACON_PRIVATE_BLE_SOURCE
| BEACON_NOT_A_BEACON.

Global Instance beacon_kind_eq_dec : EqDecision beacon_kind.
Proof. solve_decision. Defined.

(** [BermudaDeviceScanner]: what one scanner knows of one device.  Only the
    attributes the coordinator reads are kept. *)
Module Scanner.
Record t : Set := mk {
  name : option string;
  rssi : option Qc;
  rssi_distance : option Qc;
  area_id : option string;
}.
End Scanner.

(** [BermudaDevice], with the attributes the coordinator reads or writes.
    [position] is [None] when the object has no such attribute. *)
Module Device.
Record t : Set := mk {
  address : string;
  unique_id : string;
  name : option string;
  create_sensor : bool;
  is_scanner : bool;
  last_seen : Qc;
  address_type : bdaddr_type;
  beacon_type : list beacon_kind;
  beacon_unique_id : option string;
  beacon_uuid : option string;
  beacon_major : option string;
  beacon_minor : option string;
  beacon_power : option Z;
  beacon_sources : list string;
  scanners : list (string * Scanner.t);
  position : option position;
  trilaterated_position : option (Qc * Qc);
  area_id : option string;
  area_name : option string;
  area_distance : option Qc;
  area_rssi : option Qc;
  area_scanner : option string;
}.

Definition with_identity (mac : string) (d : t) : t :=
  mk mac mac (name d) (create_sensor d) (is_scanner d) (last_seen d)
     (address_type d) (beacon_type d) (beacon_unique_id d) (beacon_uuid d)
     (beacon_major d) (beacon_minor d) (beacon_power d) (beacon_sources d)
     (scanners d) (position d) (trilaterated_position d) (area_id d)
     (area_name d) (area_distance d) (area_rssi d) (area_scanner d).

Definition with_name (n : option string) (d : t) : t :=
  mk (address d) (unique_id d) n (create_sensor d) (is_scanner d) (last_seen d)
     (address_type d) (beacon_type d) (beacon_unique_id d) (beacon_uuid d)
     (beacon_major d) (beacon_minor d) (beacon_power d) (beacon_sources d)
     (scanners d) (position d) (trilaterated_position d) (area_id d)
     (area_name d) (area_distance d) (area_rssi d) (area_scanner d).

Definition with_create_sensor (b : bool) (d : t) : t :=
  mk (address d) (unique_id d) (name d) b (is_scanner d) (last_seen d)
     (address_type d) (beacon_type d) (beacon_unique_id d) (beacon_uuid d)
     (beacon_major d) (beacon_minor d) (beacon_power d) (beacon_sources d)
     (scanners d) (position d) (trilaterated_position d) (area_id d)
     (area_name d) (area_distance d) (area_rssi d) (area_scanner d).

Definition with_beacon_type (bt : list beacon_kind) (d : t) : t :=
  mk (address d) (unique_id d) (name d) (create_sensor d) (is_scanner d)
     (last_seen d) (address_type d) bt (beacon_unique_id d) (beacon_uuid d)
     (beacon_major d) (beacon_minor d) (beacon_power d) (beacon_sources d)
     (scanners d) (position d) (trilaterated_position d) (area_id d)
     (area_name d) (area_distance d) (area_rssi d) (area_scanner d).

(** The five beacon attributes, copied from [src] onto [d]. *)
Definition with_beacon_of (src d : t) : t :=
  mk (address d) (unique_id d) (name d) (create_sensor d) (is_scanner d)
     (last_seen d) (address_type d) (beacon_type d) (beacon_unique_id src)
     (beacon_uuid src) (beacon_major src) (beacon_minor src) (beacon_power src)
     (beacon_sources d) (scanners d) (position d) (trilaterated_position d)
     (area_id d) (area_name d) (area_distance d) (area_rssi d) (area_scanner d).

Definition with_beacon_sources (l : list string) (d : t) : t :=
  mk (address d) (unique_id d) (name d) (create_sensor d) (is_scanner d)
     (last_seen d) (address_type d) (beacon_type d) (beacon_unique_id d)
     (beacon_uuid d) (beacon_major d) (beacon_minor d) (beacon_power d) l
     (scanners d) (position d) (trilaterated_position d) (area_id d)
     (area_name d) (area_distance d) (area_rssi d) (area_scanner d).

Definition with_trilaterated_position (p : option (Qc * Qc)) (d : t) : t :=
  mk (address d) (unique_id d) (name d) (create_sensor d) (is_scanner d)
     (last_seen d) (address_type d) (beacon_type d) (beacon_unique_id d)
     (beacon_uuid d) (beacon_major d) (beacon_minor d) (beacon_power d)
     (beacon_sources d) (scanners d) (position d) p (area_id d)
     (area_name d) (area_distance d) (area_rssi d) (area_scanner d).

Definition with_area (aid aname : option string) (adist arssi : option Qc)
    (ascanner : option string) (d : t) : t :=
  mk (address d) (unique_id d) (name d) (create_sensor d) (is_scanner d)
     (last_seen d) (address_type d) (beacon_type d) (beacon_unique_id d)
     (beacon_uuid d) (beacon_major d) (beacon_minor d) (beacon_power d)
     (beacon_sources d) (scanners d) (position d) (trilaterated_position d)
     aid aname adist arssi ascanner.
End Device.

(** [self.options], a dict read with [.get(key, default)]: a key that is not
    set is [None]. *)
Record Options : Set := mk_options {
  CONF_MAX_RADIUS : option Qc;
  CONF_ENABLE_TRILATERATION : option bool;
  CONF_DEVICES : option (list string);
  CONF_REF_POWER : option Qc;
  CONF_ATTENUATION : option Qc;
}.

(** The constants imported from [const.py]. *)
Class Consts : Set := {
  HIST_KEEP_COUNT : nat;
  PRUNE_MAX_COUNT : Z;
  PRUNE_TIME_DEFAULT : Qc;
  PRUNE_TIME_IRK : Qc;
  DEFAULT_MAX_RADIUS : Qc;
  DEFAULT_ENABLE_TRILATERATION : bool;
}.

(** What the coordinator calls outside these files. *)
Class Platform : Type := {
  (** [np.linalg.lstsq(A, b, rcond=None)[0]]; [None] when it raises
      [LinAlgError]. *)
  lstsq : list (Qc * Qc) → list Qc → option (Qc * Qc);
  (** C's [pow] on a positive base other than one and a non-zero exponent:
      the value it computes, whose range [float_pow] checks. *)
  libm_pow : Qc → Qc → Qc;
  (** [math.hypot]. *)
  hypot : Qc → Qc → Qc;
  (** [area_reg.async_get_area(area_id)], then the [name] of the entry. *)
  async_get_area : option string → option string;
  (** [homeassistant.helpers.device_registry.format_mac]. *)
  format_mac : string → string;
  (** [BermudaDevice(address=mac, options=self.options)]. *)
  BermudaDevice_init : string → Options → Device.t;
  (** [device.update_distance_to_scanner(scanner, distance)]. *)
  update_distance_to_scanner : Device.t → Device.t → Qc → Device.t;
  (** [device.update_scanner(scanner_device, discovered)]. *)
  update_scanner : Device.t → Device.t → Device.t;
}.

(** ** trilateration.py *)

Section trilateration.
Context {P : Platform}.

(** Line 17: the matrix [A], one row [2 p_i - 2 p_0] for each later scanner.
    [positions[0]] raises on an empty list; with one position the empty
    array of rows and the row [2 p_0] do not broadcast. *)
Definition matrix_A (positions : list position) : outcome (list (Qc * Qc)) :=
  let rows := drop 1 positions in
  let! p0 := Py.index positions 0 in
  match rows with
  | [] => Raise ValueError
  | _ =>
      Return
        ((λ p, (dec 2 1 * coord0 p - dec 2 1 * coord0 p0,
                dec 2 1 * coord1 p - dec 2 1 * coord1 p0)%Qc) <$> rows)
  end.

(** Line 18: the entry of [b] for scanner [i], operands left to right.  The
    distances are floats, whose [** 2] raises on overflow; the positions are
    squared by numpy, which does not raise. *)
Definition entry_b (positions : list position) (distances : list Qc)
    (i : nat) : outcome Qc :=
  let! d0 := Py.index distances 0 in
  let! d0_squared := float_square d0 in
  let! di := Py.index distances i in
  let! di_squared := float_square di in
  let! p0 := Py.index positions 0 in
  let! s0 := sum_of_squares p0 in
  let! pi := Py.index positions i in
  let! si := sum_of_squares pi in
  Return (d0_squared - di_squared - s0 + si)%Qc.

Definition vector_b (positions : list position) (distances : list Qc)
    : outcome (list Qc) :=
  Py.comprehension (entry_b positions distances)
    (seq 1 (length positions - 1)).

Definition linear_system (positions : list position) (distances : list Qc)
    : outcome (list (Qc * Qc) * list Qc) :=
  let! A := matrix_A positions in
  let! b := vector_b positions distances in
  Return (A, b).

(** [trilaterate]: the estimate, [None] when the solver raised
    [LinAlgError], which is the one exception the function handles. *)
Definition trilaterate (positions : list position) (distances : list Qc)
    : outcome (option (Qc * Qc)) :=
  let! '(A, b) := linear_system positions distances in
  Return (lstsq A b).
End trilateration.

(** ** The coordinator *)

(** [BermudaDataUpdateCoordinator]: the attributes the modelled methods use.
    [metadevices] holds the same objects as [devices]; the model keeps a copy
    of each record in both tables. *)
Module Coordinator.
Record t : Type := mk {
  options : Options;
  devices : gmap string Device.t;
  metadevices : gmap string Device.t;
  path_loss_factors : gmap string Qc;
  obstruction_map : list ((Qc * Qc) * Qc);
  _do_full_scanner_init : bool;
  _do_private_device_init : bool;
}.

Definition with_devices (ds : gmap string Device.t) (c : t) : t :=
  mk (options c) ds (metadevices c) (path_loss_factors c) (obstruction_map c)
     (_do_full_scanner_init c) (_do_private_device_init c).

Definition with_metadevices (ms : gmap string Device.t) (c : t) : t :=
  mk (options c) (devices c) ms (path_loss_factors c) (obstruction_map c)
     (_do_full_scanner_init c) (_do_private_device_init c).

Definition with_path_loss_factors (f : gmap string Qc) (c : t) : t :=
  mk (options c) (devices c) (metadevices c) f (obstruction_map c)
     (_do_full_scanner_init c) (_do_private_device_init c).

Definition with_init_flags (full private : bool) (c : t) : t :=
  mk (options c) (devices c) (metadevices c) (path_loss_factors c)
     (obstruction_map c) full private.
End Coordinator.

(** The parts of the update cycle that these files call but do not hold:
    [_refresh_scanners] (its body is cut short in the file), the handling of
    manufacturer data and names of one advertisement, and the steps of the
    cycle after the advertisements are read. *)
Class Cycle : Type := {
  _refresh_scanners : list string → Coordinator.t → Coordinator.t;
  read_advert_metadata : string → Coordinator.t → Coordinator.t;
  finish_cycle : Coordinator.t → outcome unit * Coordinator.t;
}.

(** A method that may raise and may mutate [self]. *)
Definition method (A : Type) : Type := Coordinator.t → outcome A * Coordinator.t.

Definition method_ret {A} (a : A) : method A := λ self, (Return a, self).

Definition method_bind {A B} (m : method A) (k : A → method B) : method B :=
  λ self,
    match m self with
    | (Return a, self') => k a self'
    | (Raise e, self') => (Raise e, self')
    end.

(** A computation that only reads [self]. *)
Definition method_read {A} (f : Coordinator.t → outcome A) : method A :=
  λ self, (f self, self).

Notation "'do!' x ':=' m 'in' k" := (method_bind m (λ x, k))
  (at level 10, x name, m at level 100, k at level 200, only parsing).

(** ** The distance model (coordinator.py, lines 224-314) *)

Section distance_model.
Context {P : Platform}.

(** [v ** w] on floats, as CPython's [float_pow] sorts out the cases before
    it calls C's [pow]: anything to the power zero is one, zero to a
    negative power raises, zero to a positive power is zero, one to any
    power is one; and a result of [pow] that is out of the range of a float
    raises [OverflowError].  The bases of this program are never negative. *)
Definition float_pow (v w : Qc) : outcome Qc :=
  if bool_decide (w = Q2Qc 0) then Return (Q2Qc 1)
  else if bool_decide (v = Q2Qc 0) then
    if bool_decide (w < Q2Qc 0)%Qc then Raise ZeroDivisionError
    else Return (Q2Qc 0)
  else if bool_decide (v = Q2Qc 1) then Return (Q2Qc 1)
  else if float_overflows (libm_pow v w) then Raise OverflowError
  else Return (libm_pow v w).

(** [f"{device.address}_{scanner.address}"]. *)
Definition path_key (device scanner : Device.t) : string :=
  Device.address device +:+ "_" +:+ Device.address scanner.

Definition calculate_path_loss_factor (device scanner : Device.t) : method Qc :=
  λ self,
    let key := path_key device scanner in
    match Coordinator.path_loss_factors self !! key with
    | Some factor => (Return factor, self)
    | None =>
        (Return (dec 2 1),
         Coordinator.with_path_loss_factors
           (<[key := dec 2 1]> (Coordinator.path_loss_factors self)) self)
    end.

Definition update_path_loss_factor (device scanner : Device.t)
    (measured_loss : Qc) : method unit :=
  λ self,
    let key := path_key device scanner in
    let current_factor :=
      default (dec 2 1) (Coordinator.path_loss_factors self !! key) in
    let alpha := dec 1 10 in
    let updated_factor :=
      (current_factor * (Q2Qc 1 - alpha) + measured_loss * alpha)%Qc in
    (Return (),
     Coordinator.with_path_loss_factors
       (<[key := updated_factor]> (Coordinator.path_loss_factors self)) self).

(** [self.obstruction_map[point]]. *)
Definition obstruction_at (self : Coordinator.t) (point : Qc * Qc) : outcome Qc :=
  match list_find (λ kv, kv.1 = point) (Coordinator.obstruction_map self) with
  | Some (_, kv) => Return kv.2
  | None => Raise KeyError
  end.

Definition get_field_strength_estimate (self : Coordinator.t) (x y : Qc)
    : outcome Qc :=
  let! nearest_point :=
    Py.min_by (λ p, hypot (p.1 - x) (p.2 - y))%Qc
      (Coordinator.obstruction_map self).*1 in
  obstruction_at self nearest_point.

(** The estimate as a number, for statements about a map that has entries
    (on the empty map the lookup raises and this is zero). *)
Definition field_estimate (self : Coordinator.t) (x y : Qc) : Qc :=
  match get_field_strength_estimate self x y with
  | Return strength => strength
  | Raise _ => Q2Qc 0
  end.

(** The field rises across the half step after the grid line [x], on the
    horizontal through [ymid]; and after the grid line [y], on the vertical
    through [xmid]. *)
Definition rising_x (self : Coordinator.t) (ymid : Qc) (x : Z) : Prop :=
  (field_estimate self (Qc_of_Z x) ymid
   < field_estimate self (Qc_of_Z x + dec 1 2) ymid)%Qc.

Definition rising_y (self : Coordinator.t) (xmid : Qc) (y : Z) : Prop :=
  (field_estimate self xmid (Qc_of_Z y)
   < field_estimate self xmid (Qc_of_Z y + dec 1 2))%Qc.

Global Typeclasses Opaque rising_x rising_y.

Global Instance rising_x_dec self ymid x : Decision (rising_x self ymid x).
Proof. unfold rising_x. apply Qc_lt_dec. Defined.

Global Instance rising_y_dec self xmid y : Decision (rising_y self xmid y).
Proof. unfold rising_y. apply Qc_lt_dec. Defined.

(** One round of either loop of [count_wall_crossings]: the two samples,
    left then right, and the comparison. *)
Definition crossing_x (self : Coordinator.t) (ymid : Qc) (n : Z) (x : Z)
    : outcome Z :=
  let! here := get_field_strength_estimate self (Qc_of_Z x) ymid in
  let! ahead :=
    get_field_strength_estimate self (Qc_of_Z x + dec 1 2)%Qc ymid in
  Return (if bool_decide (here < ahead)%Qc then (n + 1)%Z else n).

Definition crossing_y (self : Coordinator.t) (xmid : Qc) (n : Z) (y : Z)
    : outcome Z :=
  let! here := get_field_strength_estimate self xmid (Qc_of_Z y) in
  let! ahead :=
    get_field_strength_estimate self xmid (Qc_of_Z y + dec 1 2)%Qc in
  Return (if bool_decide (here < ahead)%Qc then (n + 1)%Z else n).

Definition count_wall_crossings (self : Coordinator.t) (start end_ : position)
    : outcome Z :=
  let x1 := coord0 start in
  let y1 := coord1 start in
  let x2 := coord0 end_ in
  let y2 := coord1 end_ in
  let! wall_crossings :=
    for_each (crossing_x self ((y1 + y2) / dec 2 1)%Qc) 0%Z
      (py_range (py_int (py_min x1 x2)) (py_int (py_max x1 x2) + 1)) in
  for_each (crossing_y self ((x1 + x2) / dec 2 1)%Qc) wall_crossings
    (py_range (py_int (py_min y1 y2)) (py_int (py_max y1 y2) + 1)).

(** [obj.position], an [AttributeError] when the object has none. *)
Definition get_position (d : Device.t) : outcome position :=
  match Device.position d with
  | Some p => Return p
  | None => Raise AttributeError
  end.

(** [apply_path_loss_factor]; the result is the device object as the call
    leaves it. *)
Definition apply_path_loss_factor (device scanner : Device.t) : method Device.t :=
  do! path_loss_factor := calculate_path_loss_factor device scanner in
  do! start := method_read (λ _, get_position device) in
  do! end_ := method_read (λ _, get_position scanner) in
  let distance :=
    hypot (coord0 end_ - coord0 start)%Qc (coord1 end_ - coord1 start)%Qc in
  do! adjusted_distance := method_read (λ _, float_pow distance path_loss_factor) in
  do! wall_crossings :=
    method_read (λ self, count_wall_crossings self start end_) in
  do! attenuation :=
    method_read (λ _, float_pow (dec 1 2) (Qc_of_Z wall_crossings)) in
  method_ret
    (update_distance_to_scanner device scanner
       (adjusted_distance * attenuation)%Qc).

(** [calculate_distance_from_rssi]: the reference power and the exponent
    are the two local constants; [self.options] is not read. *)
Definition calculate_distance_from_rssi (self : Coordinator.t) (rssi : Qc)
    : outcome Qc :=
  let txPower := Qc_of_Z (-59) in
  let n := dec 2 1 in
  float_pow (Qc_of_Z 10) ((txPower - rssi) / (Qc_of_Z 10 * n))%Qc.
End distance_model.

(** ** The device table (coordinator.py, lines 382-417) *)

Section device_table.
Context {C : Consts} {P : Platform}.

(** [format_mac(address).lower()], the key of every lookup and insertion. *)
Definition mac_key (address : string) : string := lower (format_mac address).

Definition _get_device (self : Coordinator.t) (address : string)
    : option Device.t :=
  Coordinator.devices self !! mac_key address.

(** [_get_or_create_device]: the device, and [self] as the call leaves it. *)
Definition _get_or_create_device (address : string) (self : Coordinator.t)
    : Device.t * Coordinator.t :=
  match _get_device self address with
  | Some device => (device, self)
  | None =>
      let mac := mac_key address in
      let device :=
        Device.with_identity mac
          (BermudaDevice_init mac (Coordinator.options self)) in
      (device,
       Coordinator.with_devices (<[mac := device]> (Coordinator.devices self)) self)
  end.

(** The loop of [perform_trilateration] over [device.scanners.items()]:
    the contacts that have a distance and whose scanner device is in the
    table and has a position. *)
Definition usable_contact (self : Coordinator.t) (item : string * Scanner.t)
    : option (position * Qc) :=
  match Scanner.rssi_distance item.2, Coordinator.devices self !! item.1 with
  | Some distance, Some scanner_device =>
      match Device.position scanner_device with
      | Some p => Some (p, distance)
      | None => None
      end
  | _, _ => None
  end.

Definition usable_contacts (self : Coordinator.t) (device : Device.t)
    : list (position * Qc) :=
  omap (usable_contact self) (Device.scanners device).

(** [perform_trilateration]: the device object as the call leaves it.  The
    [try] around [trilaterate] catches every exception. *)
Definition perform_trilateration (self : Coordinator.t) (device : Device.t)
    : Device.t :=
  if negb (default DEFAULT_ENABLE_TRILATERATION
             (CONF_ENABLE_TRILATERATION (Coordinator.options self)))
  then device
  else
    let contacts := usable_contacts self device in
    let positions := contacts.*1 in
    let distances := contacts.*2 in
    if bool_decide (3 ≤ length positions)%nat then
      match trilaterate positions distances with
      | Return estimate => Device.with_trilaterated_position estimate device
      | Raise _ => device
      end
    else device.
End device_table.

(** ** Pruning (coordinator.py, lines 501-543) *)

(** The order of [sorted] on [(stamp, address)] tuples. *)
Definition stamp_le (a b : Qc * string) : Prop :=
  (a.1 < b.1)%Qc ∨ (a.1 = b.1 ∧ String.le a.2 b.2).

Global Instance stamp_le_dec : RelDecision stamp_le.
Proof. intros a b. unfold stamp_le. apply _. Defined.

(** [for device_address in prune_list: del self.devices[device_address]]. *)
Fixpoint delete_each (prune_list : list string) (devices : gmap string Device.t)
    : outcome unit * gmap string Device.t :=
  match prune_list with
  | [] => (Return (), devices)
  | device_address :: rest =>
      match devices !! device_address with
      | Some _ => delete_each rest (delete device_address devices)
      | None => (Raise KeyError, devices)
      end
  end.

Section pruning.
Context {C : Consts}.

(** The first beacon source of every metadevice that has one. *)
Definition metadevice_source_primos (self : Coordinator.t) : gset string :=
  list_to_set
    (omap (λ metadevice, head (Device.beacon_sources metadevice))
       (map_to_list (Coordinator.metadevices self)).*2).

(** The five conditions of the outer [if]. *)
Definition prune_eligible (primos : gset string) (device_address : string)
    (device : Device.t) : bool :=
  bool_decide (device_address ∉ primos)
  && negb (Device.create_sensor device)
  && negb (Device.is_scanner device)
  && bool_decide (Q2Qc 0 < Device.last_seen device)%Qc
  && bool_decide (Device.address_type device ≠ BDADDR_TYPE_NOT_MAC48).

(** The staleness window that applies to a device. *)
Definition prune_window (device : Device.t) : Qc :=
  if bool_decide (Device.address_type device = BDADDR_TYPE_PRIVATE_RESOLVABLE)
  then PRUNE_TIME_IRK
  else PRUNE_TIME_DEFAULT.

Definition prune_stale (now : Qc) (device : Device.t) : bool :=
  bool_decide (Device.last_seen device < now - prune_window device)%Qc.

(** The records of the table that the staleness rule removes, and the
    eligible records it leaves, in the order of the iteration. *)
Definition stale_records (now : Qc) (self : Coordinator.t)
    : list (string * Device.t) :=
  filter
    (λ item, prune_eligible (metadevice_source_primos self) item.1 item.2
             && prune_stale now item.2)
    (map_to_list (Coordinator.devices self)).

Definition fresh_records (now : Qc) (self : Coordinator.t)
    : list (string * Device.t) :=
  filter
    (λ item, prune_eligible (metadevice_source_primos self) item.1 item.2
             && negb (prune_stale now item.2))
    (map_to_list (Coordinator.devices self)).

(** The tuples of [sorted_addresses], in the order of [sorted]. *)
Definition sorted_stamps (now : Qc) (self : Coordinator.t) : list (Qc * string) :=
  merge_sort stamp_le
    ((λ kv, (kv.2, kv.1))
       <$> map_to_list
             (foldl (λ stamps item, <[item.1 := Device.last_seen item.2]> stamps)
                (∅ : gmap string Qc) (fresh_records now self))).

(** One round of the loop over [self.devices.items()]. *)
Definition prune_scan (now : Qc) (primos : gset string)
    (acc : list string * gmap string Qc) (item : string * Device.t)
    : list string * gmap string Qc :=
  let '(device_address, device) := item in
  if prune_eligible primos device_address device then
    if bool_decide (Device.address_type device = BDADDR_TYPE_PRIVATE_RESOLVABLE)
    then
      if bool_decide (Device.last_seen device < now - PRUNE_TIME_IRK)%Qc
      then (acc.1 ++ [device_address], acc.2)
      else (acc.1, <[device_address := Device.last_seen device]> acc.2)
    else if bool_decide (Device.last_seen device < now - PRUNE_TIME_DEFAULT)%Qc
    then (acc.1 ++ [device_address], acc.2)
    else (acc.1, <[device_address := Device.last_seen device]> acc.2)
  else acc.

(** The prune list the method builds: the stale records, then the
    oldest of the others while the table is over its cap. *)
Definition prune_list_of (now : Qc) (self : Coordinator.t) : list string :=
  let primos := metadevice_source_primos self in
  let '(prune_list, prunable_stamps) :=
    foldl (prune_scan now primos) ([], ∅)
      (map_to_list (Coordinator.devices self)) in
  let prune_quota :=
    (Z.of_nat (size (Coordinator.devices self))
     - Z.of_nat (length prune_list) - PRUNE_MAX_COUNT)%Z in
  if bool_decide (0 < prune_quota)%Z then
    let sorted_addresses :=
      merge_sort stamp_le ((λ kv, (kv.2, kv.1)) <$> map_to_list prunable_stamps) in
    prune_list ++ (take (Z.to_nat prune_quota) sorted_addresses).*2
  else prune_list.

(** [prune_devices], with [now] the reading of [MONOTONIC_TIME()]. *)
Definition prune_devices (now : Qc) : method unit :=
  λ self,
    let '(result, devices) :=
      delete_each (prune_list_of now self) (Coordinator.devices self) in
    (result, Coordinator.with_devices devices self).
End pruning.

(** ** Metadevice sources (coordinator.py, lines 545-641) *)

Section metadevices.
Context {C : Consts} {P : Platform}.

(** Lines 639-641: a source that is not in the list goes to its head, and
    the list is cut to [HIST_KEEP_COUNT] entries. *)
Definition insert_ibeacon_source (address : string) (beacon_sources : list string)
    : list string :=
  if bool_decide (address ∉ beacon_sources)
  then take HIST_KEEP_COUNT (address :: beacon_sources)
  else beacon_sources.

(** Lines 596-597: a source that is not at the head of the list goes to
    its head; the list is not cut. *)
Definition insert_private_ble_source (pb_source_address : string)
    (beacon_sources : list string) : list string :=
  if bool_decide (length beacon_sources = 0%nat
                  ∨ head beacon_sources ≠ Some pb_source_address)
  then pb_source_address :: beacon_sources
  else beacon_sources.

(** [beacon_type.add(kind)] on the set of beacon types. *)
Definition add_beacon_type (kind : beacon_kind) (d : Device.t) : Device.t :=
  if bool_decide (kind ∈ Device.beacon_type d) then d
  else Device.with_beacon_type (kind :: Device.beacon_type d) d.

(** A write to the device object stored under [key], seen through both
    tables that hold the object. *)
Definition store_device (key : string) (device : Device.t) (self : Coordinator.t)
    : Coordinator.t :=
  let self' :=
    Coordinator.with_devices (<[key := device]> (Coordinator.devices self)) self in
  match Coordinator.metadevices self' !! Device.address device with
  | Some _ =>
      Coordinator.with_metadevices
        (<[Device.address device := device]> (Coordinator.metadevices self')) self'
  | None => self'
  end.

Definition register_ibeacon_source (source_device : Device.t)
    (self : Coordinator.t) : Coordinator.t :=
  if bool_decide (BEACON_IBEACON_SOURCE ∉ Device.beacon_type source_device)
  then self
  else
    match Device.beacon_unique_id source_device with
    | None => self
    | Some beacon_unique_id =>
        let '(metadevice, self) := _get_or_create_device beacon_unique_id self in
        let '(metadevice, self) :=
          if bool_decide (length (Device.beacon_sources metadevice) = 0%nat) then
            let self :=
              match Coordinator.metadevices self !! Device.address metadevice with
              | None =>
                  Coordinator.with_metadevices
                    (<[Device.address metadevice := metadevice]>
                       (Coordinator.metadevices self)) self
              | Some _ => self
              end in
            let metadevice := Device.with_beacon_of source_device metadevice in
            let metadevice :=
              if bool_decide
                   (upper (Device.address metadevice)
                    ∈ default [] (CONF_DEVICES (Coordinator.options self)))
              then Device.with_create_sensor true metadevice
              else metadevice in
            (metadevice, self)
          else (metadevice, self) in
        let metadevice :=
          Device.with_beacon_sources
            (insert_ibeacon_source (Device.address source_device)
               (Device.beacon_sources metadevice)) metadevice in
        store_device (mac_key beacon_unique_id) metadevice self
    end.

(** The body of the loop of [discover_private_ble_metadevices] for one
    tracker entity: [irk] is the head of its unique id, [pb_name] the name
    of its registry device, [pb_source_address] its current address. *)
Definition discover_private_ble_entity (irk : string) (pb_name : option string)
    (pb_source_address : option string) (self : Coordinator.t) : Coordinator.t :=
  let '(metadevice, self) := _get_or_create_device irk self in
  let metadevice :=
    Device.with_name pb_name (Device.with_create_sensor true metadevice) in
  let self :=
    match Coordinator.metadevices self !! Device.address metadevice with
    | None =>
        Coordinator.with_metadevices
          (<[Device.address metadevice := metadevice]>
             (Coordinator.metadevices self)) self
    | Some _ => self
    end in
  let self := store_device (mac_key irk) metadevice self in
  match pb_source_address with
  | None => self
  | Some pb_source_address =>
      let pb_source_address := lower pb_source_address in
      let '(source_device, self) :=
        _get_or_create_device pb_source_address self in
      let self :=
        store_device (mac_key pb_source_address)
          (add_beacon_type BEACON_PRIVATE_BLE_SOURCE source_device) self in
      match _get_device self irk with
      | Some metadevice =>
          store_device (mac_key irk)
            (Device.with_beacon_sources
               (insert_private_ble_source pb_source_address
                  (Device.beacon_sources metadevice)) metadevice) self
      | None => self
      end
  end.
End metadevices.

(** ** Area by closest scanner (coordinator.py, lines 715-766) *)

Section areas.
Context {C : Consts} {P : Platform}.

Definition max_radius (self : Coordinator.t) : Qc :=
  default DEFAULT_MAX_RADIUS (CONF_MAX_RADIUS (Coordinator.options self)).

(** The distance of a contact that has one below [max_radius]. *)
Definition in_radius (self : Coordinator.t) (scanner : Scanner.t) : option Qc :=
  match Scanner.rssi_distance scanner with
  | Some distance =>
      if bool_decide (distance < max_radius self)%Qc then Some distance else None
  | None => None
  end.

(** What the loop has found after the contacts [l]: nothing when no contact
    is in the radius, else the first of the contacts at the least distance. *)
Definition closest_so_far (self : Coordinator.t) (l : list Scanner.t)
    (acc : option Scanner.t) : Prop :=
  match acc with
  | None => ∀ scanner, scanner ∈ l → in_radius self scanner = None
  | Some closest =>
      ∃ i distance,
        l !! i = Some closest
        ∧ in_radius self closest = Some distance
        ∧ (∀ j other d, l !! j = Some other → in_radius self other = Some d →
             (distance ≤ d)%Qc)
        ∧ (∀ j other d, (j < i)%nat → l !! j = Some other →
             in_radius self other = Some d → (distance < d)%Qc)
  end.

(** One round of the loop over [device.scanners.values()]. *)
Definition closer_scanner (self : Coordinator.t)
    (closest_scanner : option Scanner.t) (scanner : Scanner.t)
    : option Scanner.t :=
  match Scanner.rssi_distance scanner with
  | Some distance =>
      if bool_decide (distance < max_radius self)%Qc then
        match closest_scanner with
        | None => Some scanner
        | Some closest =>
            match Scanner.rssi_distance closest with
            | None => Some scanner
            | Some closest_distance =>
                if bool_decide (distance < closest_distance)%Qc
                then Some scanner
                else closest_scanner
            end
        end
      else closest_scanner
  | None => closest_scanner
  end.

Definition closest_scanner_of (self : Coordinator.t) (device : Device.t)
    : option Scanner.t :=
  foldl (closer_scanner self) None (Device.scanners device).*2.

(** [_refresh_area_by_min_distance]: the device object as the call leaves
    it; the [assert] raises on a scanner. *)
Definition _refresh_area_by_min_distance (self : Coordinator.t)
    (device : Device.t) : outcome Device.t :=
  if Device.is_scanner device then Raise AssertionError
  else
    match closest_scanner_of self device with
    | Some closest_scanner =>
        let area_id := Scanner.area_id closest_scanner in
        let area_name :=
          match async_get_area area_id with
          | Some name => name
          | None => "No area: " +:+ Py.str_opt (Scanner.name closest_scanner)
          end in
        Return
          (Device.with_area area_id (Some area_name)
             (Scanner.rssi_distance closest_scanner)
             (Scanner.rssi closest_scanner)
             (Scanner.name closest_scanner) device)
    | None => Return (Device.with_area None None None None None device)
    end.
End areas.

(** ** The update cycle (coordinator.py, lines 419-499) *)

(** One cached advertisement: the address of the device and the sources of
    the scanners that heard it. *)
Record advert : Set := mk_advert {
  advert_address : string;
  advert_sources : list string;
}.

Section update_cycle.
Context {C : Consts} {P : Platform} {Y : Cycle}.

(** The body of the loop over [matched_scanners].  Objects are read from
    the table under their keys, so a write is seen by every later read. *)
Definition ingest_contact (matched : list string) (device_key source : string)
    : method unit :=
  λ self,
    let self :=
      match _get_device self source with
      | None => _refresh_scanners matched (Coordinator.with_init_flags true true self)
      | Some _ => self
      end in
    match _get_device self source, Coordinator.devices self !! device_key with
    | Some scanner_device, Some device =>
        let self :=
          store_device device_key (update_scanner device scanner_device) self in
        match _get_device self source, Coordinator.devices self !! device_key with
        | Some scanner_device, Some device =>
            match apply_path_loss_factor device scanner_device self with
            | (Return device, self) =>
                (Return (), store_device device_key device self)
            | (Raise e, self) => (Raise e, self)
            end
        | _, _ => (Return (), self)
        end
    | _, _ => (Return (), self)
    end.

Fixpoint ingest_contacts (matched : list string) (device_key : string)
    (sources : list string) : method unit :=
  match sources with
  | [] => method_ret ()
  | source :: rest =>
      do! _ := ingest_contact matched device_key source in
      ingest_contacts matched device_key rest
  end.

(** The body of the loop over the cached advertisements. *)
Definition ingest_advert (a : advert) : method unit :=
  λ self,
    let '(device, self) := _get_or_create_device (advert_address a) self in
    let device_key := mac_key (advert_address a) in
    let self := read_advert_metadata device_key self in
    ingest_contacts (advert_sources a) device_key (advert_sources a) self.

Fixpoint ingest_adverts (adverts : list advert) : method unit :=
  match adverts with
  | [] => method_ret ()
  | a :: rest => do! _ := ingest_advert a in ingest_adverts rest
  end.

(** [_async_update_data]: no statement of the method is inside a [try]. *)
Definition _async_update_data (adverts : list advert) : method unit :=
  do! _ := ingest_adverts adverts in
  finish_cycle.
End update_cycle.

(** ** Repeated calls *)

(** [n] calls of [update_path_loss_factor] for one link with one measured
    loss. *)
Definition update_path_loss_factor_times (n : nat) (device scanner : Device.t)
    (measured_loss : Qc) (self : Coordinator.t) : Coordinator.t :=
  Nat.iter n (λ self, (update_path_loss_factor device scanner measured_loss self).2)
    self.

(** ** Sample platforms and states

    Concrete values for the parameters, used where a statement is evaluated
    on an input. *)

Module Samples.

Definition consts : Consts := {|
  HIST_KEEP_COUNT := 10;
  PRUNE_MAX_COUNT := 2;
  PRUNE_TIME_DEFAULT := Qc_of_Z 86400;
  PRUNE_TIME_IRK := Qc_of_Z 240;
  DEFAULT_MAX_RADIUS := Qc_of_Z 20;
  DEFAULT_ENABLE_TRILATERATION := true;
|}.

Definition qsum (l : list Qc) : Qc := foldr Qcplus (Q2Qc 0) l.

(** Least squares in exact arithmetic: the solution of the normal
    equations, and the solution of least norm when the columns of [A] are
    dependent.  It never fails. *)
Definition lstsq_exact (A : list (Qc * Qc)) (b : list Qc) : option (Qc * Qc) :=
  let s11 := qsum ((λ r, r.1 * r.1)%Qc <$> A) in
  let s12 := qsum ((λ r, r.1 * r.2)%Qc <$> A) in
  let s22 := qsum ((λ r, r.2 * r.2)%Qc <$> A) in
  let t1 := qsum (zip_with (λ r y, r.1 * y)%Qc A b) in
  let t2 := qsum (zip_with (λ r y, r.2 * y)%Qc A b) in
  let det := (s11 * s22 - s12 * s12)%Qc in
  if bool_decide (det ≠ Q2Qc 0) then
    Some ((s22 * t1 - s12 * t2) / det, (s11 * t2 - s12 * t1) / det)%Qc
  else if bool_decide (s11 + s22 = Q2Qc 0)%Qc then Some (Q2Qc 0, Q2Qc 0)
  else Some (t1 / (s11 + s22), t2 / (s11 + s22))%Qc.

(** A power that is exact where the exponent is a whole number; elsewhere
    the true value is irrational and the exponent is truncated. *)
Definition pow_whole (x y : Qc) : Qc := Qc_zpow x (py_int y).

(** A hypotenuse that is exact where it is rational; elsewhere the integer
    square root stands in. *)
Definition hypot_root (x y : Qc) : Qc :=
  let s := this (x * x + y * y)%Qc in
  Q2Qc (Z.sqrt (Qnum s * Zpos (Qden s)) # Qden s).

Definition area_names (area_id : option string) : option string :=
  match area_id with
  | Some "kitchen" => Some "Kitchen"
  | Some "hall" => Some "Hall"
  | _ => None
  end.

Definition blank_device (mac : string) (_ : Options) : Device.t :=
  Device.mk mac mac None false false (Q2Qc 0) BDADDR_TYPE_OTHER [] None None
    None None None [] [] None None None None None None None.

Definition set_contact_distance (distance : Qc) (sc : Scanner.t) : Scanner.t :=
  Scanner.mk (Scanner.name sc) (Scanner.rssi sc) (Some distance)
    (Scanner.area_id sc).

Definition with_scanners (l : list (string * Scanner.t)) (d : Device.t)
    : Device.t :=
  Device.mk (Device.address d) (Device.unique_id d) (Device.name d)
    (Device.create_sensor d) (Device.is_scanner d) (Device.last_seen d)
    (Device.address_type d) (Device.beacon_type d) (Device.beacon_unique_id d)
    (Device.beacon_uuid d) (Device.beacon_major d) (Device.beacon_minor d)
    (Device.beacon_power d) (Device.beacon_sources d) l (Device.position d)
    (Device.trilaterated_position d) (Device.area_id d) (Device.area_name d)
    (Device.area_distance d) (Device.area_rssi d) (Device.area_scanner d).

(** Writes the distance onto the contact the device has with the scanner. *)
Definition write_contact_distance (device scanner : Device.t) (distance : Qc)
    : Device.t :=
  with_scanners
    ((λ kv, if bool_decide (kv.1 = Device.address scanner)
            then (kv.1, set_contact_distance distance kv.2) else kv)
       <$> Device.scanners device) device.

(** Records a first contact with the scanner when there is none. *)
Definition note_contact (device scanner : Device.t) : Device.t :=
  if bool_decide (Device.address scanner ∈ (Device.scanners device).*1)
  then device
  else
    with_scanners
      (Device.scanners device
       ++ [(Device.address scanner,
            Scanner.mk (Device.name scanner) None None (Device.area_id scanner))])
      device.

Definition platform : Platform := {|
  lstsq := lstsq_exact;
  libm_pow := pow_whole;
  hypot := hypot_root;
  async_get_area := area_names;
  format_mac := format_mac_ha;
  BermudaDevice_init := blank_device;
  update_distance_to_scanner := write_contact_distance;
  update_scanner := note_contact;
|}.

Definition cycle : Cycle := {|
  _refresh_scanners := λ _ self, self;
  read_advert_metadata := λ _ self, self;
  finish_cycle := λ self, (Return (), self);
|}.

Definition no_options : Options := mk_options None None None None None.

Definition empty_coordinator : Coordinator.t :=
  Coordinator.mk no_options ∅ ∅ ∅ [] true true.

Definition placed (mac : string) (p : position) (scanner : bool) : Device.t :=
  Device.mk mac mac None false scanner (Q2Qc 0) BDADDR_TYPE_OTHER [] None None
    None None None [] [] (Some p) None None None None None None.

(** The scenario of the specification: scanners at (0,0), (10,0), (0,10). *)
Definition scenario_positions : list position :=
  [PyTuple (Qc_of_Z 0) (Qc_of_Z 0); PyTuple (Qc_of_Z 10) (Qc_of_Z 0);
   PyTuple (Qc_of_Z 0) (Qc_of_Z 10)].

Definition scenario_arrays : list position :=
  [NdArray (Qc_of_Z 0) (Qc_of_Z 0); NdArray (Qc_of_Z 10) (Qc_of_Z 0);
   NdArray (Qc_of_Z 0) (Qc_of_Z 10)].

(** A device heard at 3 m by a scanner of the kitchen and then by one of the
    hall, and at 30 m by a third. *)
Definition tied_device : Device.t :=
  with_scanners
    [("aa:aa:aa:aa:aa:01",
      Scanner.mk (Some "kitchen proxy") (Some (Qc_of_Z (-60)))
        (Some (Qc_of_Z 3)) (Some "kitchen"));
     ("aa:aa:aa:aa:aa:02",
      Scanner.mk (Some "hall proxy") (Some (Qc_of_Z (-61)))
        (Some (Qc_of_Z 3)) (Some "hall"));
     ("aa:aa:aa:aa:aa:04",
      Scanner.mk (Some "attic proxy") (Some (Qc_of_Z (-90)))
        (Some (Qc_of_Z 30)) (Some "attic"))]
    (blank_device "aa:aa:aa:aa:aa:03" no_options).


(** A device that is no scanner and was last seen at [stamp]. *)
Definition seen (mac : string) (stamp : Z) : Device.t :=
  Device.mk mac mac None false false (Qc_of_Z stamp) BDADDR_TYPE_OTHER [] None
    None None None None [] [] None None None None None None None.

(** A scanner, a phone last seen long ago and two seen lately: four records
    over a cap of two. *)
Definition crowded : Coordinator.t :=
  Coordinator.mk no_options
    (<["aa:aa:aa:aa:aa:01" :=
         placed "aa:aa:aa:aa:aa:01" (PyTuple (Qc_of_Z 0) (Qc_of_Z 0)) true]>
       (<["aa:aa:aa:aa:aa:05" := seen "aa:aa:aa:aa:aa:05" 10]>
          (<["aa:aa:aa:aa:aa:06" := seen "aa:aa:aa:aa:aa:06" 99500]>
             (<["aa:aa:aa:aa:aa:07" := seen "aa:aa:aa:aa:aa:07" 99000]> ∅))))
    ∅ ∅ [] true true.

(** Scanners at (0,0), (6,0) and (0,8) as arrays; the point (3,4) is at
    distance 5 of each. *)
Definition circle_arrays : list position :=
  [NdArray (Qc_of_Z 0) (Qc_of_Z 0); NdArray (Qc_of_Z 6) (Qc_of_Z 0);
   NdArray (Qc_of_Z 0) (Qc_of_Z 8)].

(** A private device that goes back and forth between two addresses, the
    most recent first. *)
Fixpoint rotating_addresses (n : nat) : list string :=
  match n with
  | O => []
  | S n' =>
      (if Nat.even n' then "aa:aa:aa:aa:aa:0a" else "aa:aa:aa:aa:aa:0b")
      :: rotating_addresses n'
  end.

(** A device at (3,4) and a scanner at (0,0), both in the table, and an
    obstruction map without entries; one advertisement of the device heard
    by the scanner. *)
Definition far_device : Device.t :=
  placed "aa:aa:aa:aa:aa:03" (PyTuple (Qc_of_Z 3) (Qc_of_Z 4)) false.

Definition origin_scanner : Device.t :=
  placed "aa:aa:aa:aa:aa:01" (PyTuple (Qc_of_Z 0) (Qc_of_Z 0)) true.

Definition unmapped_coordinator : Coordinator.t :=
  Coordinator.mk no_options
    (<["aa:aa:aa:aa:aa:03" := far_device]>
       (<["aa:aa:aa:aa:aa:01" := origin_scanner]> ∅))
    ∅ ∅ [] true true.

Definition heard_once : advert :=
  mk_advert "AA:AA:AA:AA:AA:03" ["AA:AA:AA:AA:AA:01"].

(** The same coordinator with two samples in its obstruction map. *)
Definition mapped_coordinator : Coordinator.t :=
  Coordinator.mk no_options
    (<["aa:aa:aa:aa:aa:03" := far_device]>
       (<["aa:aa:aa:aa:aa:01" := origin_scanner]> ∅))
    ∅ ∅
    [((Qc_of_Z 0, Qc_of_Z 0), Qc_of_Z 1); ((Qc_of_Z 2, Qc_of_Z 2), Qc_of_Z 3)]
    true true.

(** Three scanners on one line, as arrays. *)
Definition collinear_arrays : list position :=
  [NdArray (Qc_of_Z 0) (Qc_of_Z 0); NdArray (Qc_of_Z 5) (Qc_of_Z 0);
   NdArray (Qc_of_Z 10) (Qc_of_Z 0)].

(** The device at (3,4), with a contact that the scanner at the origin has
    not given a distance yet. *)
Definition heard_device : Device.t :=
  with_scanners
    [("aa:aa:aa:aa:aa:01",
      Scanner.mk (Some "origin proxy") (Some (Qc_of_Z (-60))) None None)]
    far_device.

(** A phone that advertises an iBeacon. *)
Definition ibeacon_phone : Device.t :=
  Device.mk "aa:aa:aa:aa:aa:08" "aa:aa:aa:aa:aa:08" None false false
    (Qc_of_Z 99900) BDADDR_TYPE_OTHER [BEACON_IBEACON_SOURCE]
    (Some "fda50693a4e24fb1afcfc6eb07647825_1_2")
    (Some "fda50693a4e24fb1afcfc6eb07647825") (Some "1") (Some "2")
    (Some (-59)%Z) [] [] None None None None None None None.

End Samples.

(** * Properties *)

(** ** Outcomes *)

Lemma bind_Return {A B} (m : outcome A) (k : A → outcome B) b :
  Py.bind m k = Return b ↔ ∃ a, m = Return a ∧ k a = Return b.
Proof.
  destruct m as [a|e]; simpl; split.
  - eauto.
  - by intros (a' & [= ->] & ?).
  - done.
  - by intros (a' & ? & _).
Qed.

Lemma index_Return {A} (l : list A) i a :
  Py.index l i = Return a ↔ l !! i = Some a.
Proof. unfold Py.index. destruct (l !! i); naive_solver. Qed.

(** ** trilateration.py *)

Section trilateration_facts.
Context {P : Platform}.

Lemma trilaterate_no_positions distances :
  trilaterate [] distances = Raise IndexError.
Proof. reflexivity. Qed.

Lemma trilaterate_one_position p distances :
  trilaterate [p] distances = Raise ValueError.
Proof. reflexivity. Qed.

(** With a tuple as first position and two distances at hand, the first
    entry of [b] already fails: at the square of a distance that is out of
    range, and else at [positions[0] ** 2]. *)
Lemma trilaterate_tuple_head x y p positions d0 d1 distances :
  trilaterate (PyTuple x y :: p :: positions) (d0 :: d1 :: distances)
  = Raise (if float_overflows (d0 * d0) || float_overflows (d1 * d1)
           then OverflowError else TypeError).
Proof.
  unfold trilaterate, linear_system, matrix_A, vector_b.
  cbn [Py.index lookup list_lookup Py.bind drop length Nat.sub seq
       Py.comprehension].
  unfold entry_b at 1, float_square.
  cbn [Py.index lookup list_lookup Py.bind].
  destruct (float_overflows (d0 * d0)); [done|].
  by destruct (float_overflows (d1 * d1)).
Qed.

(** The system of three scanners on the line y = 0, at x = 0, 5 and 10: the
    second column of [A] is zero. *)
Lemma linear_system_collinear d0 d1 d2 :
  linear_system Samples.collinear_arrays [d0; d1; d2]
  = if float_overflows (d0 * d0) || float_overflows (d1 * d1)
       || float_overflows (d2 * d2)
    then Raise OverflowError
    else Return ([(Qc_of_Z 10, Q2Qc 0); (Qc_of_Z 20, Q2Qc 0)],
                 [(d0 * d0 - d1 * d1 + Qc_of_Z 25)%Qc;
                  (d0 * d0 - d2 * d2 + Qc_of_Z 100)%Qc]).
Proof.
  unfold linear_system, matrix_A, vector_b, Samples.collinear_arrays.
  cbn [Py.index lookup list_lookup Py.bind drop length Nat.sub seq
       Py.comprehension fmap list_fmap coord0 coord1].
  unfold entry_b, float_square.
  cbn [Py.index lookup list_lookup Py.bind sum_of_squares].
  destruct (float_overflows (d0 * d0)); [done|].
  destruct (float_overflows (d1 * d1)); [done|].
  destruct (float_overflows (d2 * d2)); [done|].
  cbn [orb Py.bind]. f_equal. f_equal.
  - f_equal; [f_equal; qc_compute|]. f_equal. f_equal; qc_compute.
  - replace (Qc_of_Z 0 * Qc_of_Z 0 + Qc_of_Z 0 * Qc_of_Z 0)%Qc with (Q2Qc 0)
      by qc_compute.
    replace (Qc_of_Z 5 * Qc_of_Z 5 + Qc_of_Z 0 * Qc_of_Z 0)%Qc
      with (Qc_of_Z 25) by qc_compute.
    replace (Qc_of_Z 10 * Qc_of_Z 10 + Qc_of_Z 0 * Qc_of_Z 0)%Qc
      with (Qc_of_Z 100) by qc_compute.
    f_equal; [ring|]. f_equal. ring.
Qed.

(** On a matrix whose second column is zero the solver of least norm still
    answers: a point of the line. *)
Lemma lstsq_exact_collinear b1 b2 :
  Samples.lstsq_exact [(Qc_of_Z 10, Q2Qc 0); (Qc_of_Z 20, Q2Qc 0)] [b1; b2]
  = Some (((Qc_of_Z 10 * b1 + Qc_of_Z 20 * b2) / Qc_of_Z 500)%Qc, Q2Qc 0).
Proof.
  unfold Samples.lstsq_exact, Samples.qsum.
  cbn [fmap list_fmap foldr zip_with fst snd].
  set (s11 := (Qc_of_Z 10 * Qc_of_Z 10 + (Qc_of_Z 20 * Qc_of_Z 20 + Q2Qc 0))%Qc).
  set (s12 := (Qc_of_Z 10 * Q2Qc 0 + (Qc_of_Z 20 * Q2Qc 0 + Q2Qc 0))%Qc).
  set (s22 := (Q2Qc 0 * Q2Qc 0 + (Q2Qc 0 * Q2Qc 0 + Q2Qc 0))%Qc).
  assert (s11 = Qc_of_Z 500) as -> by qc_compute.
  assert (s12 = Q2Qc 0) as -> by qc_compute.
  assert (s22 = Q2Qc 0) as -> by qc_compute.
  rewrite bool_decide_eq_false_2 by (intros Hdet; apply Hdet; qc_compute).
  rewrite bool_decide_eq_false_2 by qc_differ.
  replace (Qc_of_Z 500 + Q2Qc 0)%Qc with (Qc_of_Z 500) by qc_compute.
  f_equal. f_equal; unfold Qcdiv; ring.
Qed.
End trilateration_facts.

(** C1.  In the scenario of the specification, with the scanner positions
    given as the tuples (0,0), (10,0), (0,10) that the signature of
    [trilaterate] asks for, the call does not return the point (3,4): for any
    three distances it raises, and for distances whose squares are within the
    range of a float, the exact ones included, it raises [TypeError] at
    [positions[0] ** 2]. *)
Theorem trilaterate_scenario_raises (P : Platform) (d0 d1 d2 : Qc) :
  trilaterate Samples.scenario_positions [d0; d1; d2]
  = Raise (if float_overflows (d0 * d0) || float_overflows (d1 * d1)
           then OverflowError else TypeError)
  ∧ (float_overflows (d0 * d0) = false →
     float_overflows (d1 * d1) = false →
     trilaterate Samples.scenario_positions [d0; d1; d2] = Raise TypeError).
Proof.
  split; [apply trilaterate_tuple_head|].
  intros Hd0 Hd1. unfold Samples.scenario_positions.
  by rewrite trilaterate_tuple_head, Hd0, Hd1.
Qed.

(** C2.  [trilaterate] does not return [None] where the claim has it do so.
    It has no length check: without a position it raises [IndexError] and
    with one position [ValueError].  And on a degenerate geometry it returns
    whatever the solver answers on a singular system: for the three collinear
    scanners (0,0), (5,0), (10,0), given as arrays, and any three distances
    whose squares are within range, the matrix has a zero second column and
    the call returns the answer of [lstsq] on it; the solver of least norm
    does answer, so the [except] does not apply and the call returns a
    position, a point of the line of the scanners. *)
Theorem trilaterate_degenerate_returns_position (d0 d1 d2 : Qc) :
  let A := [(Qc_of_Z 10, Q2Qc 0); (Qc_of_Z 20, Q2Qc 0)] in
  let b1 := (d0 * d0 - d1 * d1 + Qc_of_Z 25)%Qc in
  let b2 := (d0 * d0 - d2 * d2 + Qc_of_Z 100)%Qc in
  let out_of_range :=
    float_overflows (d0 * d0) || float_overflows (d1 * d1)
    || float_overflows (d2 * d2) in
  (∀ (P : Platform) distances, trilaterate [] distances = Raise IndexError)
  ∧ (∀ (P : Platform) p distances, trilaterate [p] distances = Raise ValueError)
  ∧ (∀ P : Platform,
       trilaterate Samples.collinear_arrays [d0; d1; d2]
       = if out_of_range then Raise OverflowError
         else Return (lstsq A [b1; b2]))
  ∧ trilaterate (P := Samples.platform) Samples.collinear_arrays [d0; d1; d2]
    = if out_of_range then Raise OverflowError
      else Return
             (Some (((Qc_of_Z 10 * b1 + Qc_of_Z 20 * b2) / Qc_of_Z 500)%Qc,
                    Q2Qc 0)).
Proof.
  intros A b1 b2 out_of_range. split; [done|]. split; [done|].
  assert (Hany : ∀ P : Platform,
            trilaterate Samples.collinear_arrays [d0; d1; d2]
            = if out_of_range then Raise OverflowError
              else Return (lstsq A [b1; b2])).
  { intros P. unfold trilaterate. rewrite linear_system_collinear.
    fold out_of_range. by destruct out_of_range. }
  split; [done|]. rewrite Hany. destruct out_of_range; [done|].
  f_equal. apply lstsq_exact_collinear.
Qed.

(** ** The guard of [perform_trilateration] *)

Section perform_trilateration_facts.
Context {C : Consts} {P : Platform}.

Lemma perform_trilateration_few self device :
  (length (usable_contacts self device) < 3)%nat →
  perform_trilateration self device = device.
Proof.
  intros Hfew. unfold perform_trilateration.
  destruct (negb _); [done|].
  rewrite length_fmap, bool_decide_eq_false_2 by lia. done.
Qed.

Lemma perform_trilateration_caught self device e :
  trilaterate (usable_contacts self device).*1 (usable_contacts self device).*2
  = Raise e →
  perform_trilateration self device = device.
Proof.
  intros Hraise. unfold perform_trilateration.
  destruct (negb _); [done|].
  rewrite Hraise. by destruct (bool_decide _).
Qed.

Lemma perform_trilateration_assigns self device estimate :
  default DEFAULT_ENABLE_TRILATERATION
    (CONF_ENABLE_TRILATERATION (Coordinator.options self)) = true →
  (3 ≤ length (usable_contacts self device))%nat →
  trilaterate (usable_contacts self device).*1 (usable_contacts self device).*2
  = Return estimate →
  perform_trilateration self device
  = Device.with_trilaterated_position estimate device.
Proof.
  intros Hon Hmany Hret. unfold perform_trilateration.
  rewrite Hon, Hret, length_fmap, bool_decide_eq_true_2 by done. done.
Qed.
End perform_trilateration_facts.

(** X17.  The guard is in [perform_trilateration]: switched off by its
    option, or with fewer than three usable (position, distance) pairs, it
    leaves the device as it is and does not call [trilaterate]; it keeps the
    device as it is when [trilaterate] raises, whatever the exception; and
    otherwise it stores what [trilaterate] returned, [None] included. *)
Theorem perform_trilateration_guards (C : Consts) (P : Platform)
    (self : Coordinator.t) (device : Device.t) :
  let contacts := usable_contacts self device in
  let enabled :=
    default DEFAULT_ENABLE_TRILATERATION
      (CONF_ENABLE_TRILATERATION (Coordinator.options self)) in
  (enabled = false → perform_trilateration self device = device)
  ∧ ((length contacts < 3)%nat → perform_trilateration self device = device)
  ∧ (∀ e, trilaterate contacts.*1 contacts.*2 = Raise e →
          perform_trilateration self device = device)
  ∧ (∀ estimate,
       enabled = true →
       (3 ≤ length contacts)%nat →
       trilaterate contacts.*1 contacts.*2 = Return estimate →
       perform_trilateration self device
       = Device.with_trilaterated_position estimate device).
Proof.
  intros contacts enabled. split; [|split; [|split]].
  - intros Hoff. unfold perform_trilateration. fold enabled. by rewrite Hoff.
  - apply perform_trilateration_few.
  - apply perform_trilateration_caught.
  - apply perform_trilateration_assigns.
Qed.

(** A device heard by two placed scanners only: the guard keeps it as it is. *)
Lemma perform_trilateration_guards_witness :
  let scanner_a := Samples.placed "aa:aa:aa:aa:aa:01" (NdArray (Qc_of_Z 0) (Qc_of_Z 0)) true in
  let scanner_b := Samples.placed "aa:aa:aa:aa:aa:02" (NdArray (Qc_of_Z 10) (Qc_of_Z 0)) true in
  let contact := Scanner.mk None None (Some (Qc_of_Z 5)) None in
  let device :=
    Samples.with_scanners
      [("aa:aa:aa:aa:aa:01", contact); ("aa:aa:aa:aa:aa:02", contact)]
      (Samples.blank_device "aa:aa:aa:aa:aa:03" Samples.no_options) in
  let self :=
    Coordinator.with_devices
      (<["aa:aa:aa:aa:aa:01" := scanner_a]> (<["aa:aa:aa:aa:aa:02" := scanner_b]> ∅))
      Samples.empty_coordinator in
  (length (usable_contacts self device) < 3)%nat
  ∧ perform_trilateration (C := Samples.consts) (P := Samples.platform)
      self device = device.
Proof.
  intros scanner_a scanner_b contact device self.
  assert (Hfew : (length (usable_contacts self device) < 3)%nat)
    by (vm_compute; lia).
  split; [exact Hfew|].
  exact (proj1 (proj2 (perform_trilateration_guards Samples.consts Samples.platform
                         self device)) Hfew).
Defined.


(** ** The distance model *)

Lemma alpha_complement : (Q2Qc 1 - dec 1 10)%Qc = dec 9 10.
Proof. qc_compute. Qed.

Section path_loss_facts.

Lemma calculate_path_loss_factor_value device scanner self :
  (calculate_path_loss_factor device scanner self).1
  = Return (default (dec 2 1)
              (Coordinator.path_loss_factors self !! path_key device scanner)).
Proof.
  unfold calculate_path_loss_factor.
  by destruct (Coordinator.path_loss_factors self !! _).
Qed.

Lemma calculate_path_loss_factor_state device scanner self :
  Coordinator.path_loss_factors (calculate_path_loss_factor device scanner self).2
  !! path_key device scanner
  = Some (default (dec 2 1)
            (Coordinator.path_loss_factors self !! path_key device scanner)).
Proof.
  unfold calculate_path_loss_factor.
  destruct (Coordinator.path_loss_factors self !! _) eqn:Hkey; simpl.
  - done.
  - by rewrite lookup_insert_eq.
Qed.
End path_loss_facts.

(** C6.  One call of [update_path_loss_factor] returns normally and leaves,
    under the key of the link, exactly 0.9 x old + 0.1 x measured_loss, where
    old is the stored factor or 2.0 for a link not seen before; the factors
    of the other links are untouched; and [calculate_path_loss_factor]
    answers the stored factor, 2.0 for a link not seen before. *)
Theorem update_path_loss_factor_smooths
    (device scanner : Device.t) (measured_loss : Qc) (self : Coordinator.t) :
  let key := path_key device scanner in
  let old := default (dec 2 1) (Coordinator.path_loss_factors self !! key) in
  let after := (update_path_loss_factor device scanner measured_loss self).2 in
  (update_path_loss_factor device scanner measured_loss self).1 = Return ()
  ∧ Coordinator.path_loss_factors after !! key
    = Some (dec 9 10 * old + dec 1 10 * measured_loss)%Qc
  ∧ (∀ other, other ≠ key →
       Coordinator.path_loss_factors after !! other
       = Coordinator.path_loss_factors self !! other)
  ∧ (calculate_path_loss_factor device scanner self).1 = Return old
  ∧ (Coordinator.path_loss_factors self !! key = None → old = dec 2 1).
Proof.
  intros key old after. repeat split.
  - subst after. unfold update_path_loss_factor. simpl.
    rewrite lookup_insert_eq. f_equal. fold key. fold old.
    rewrite alpha_complement. ring.
  - intros other Hother. subst after. unfold update_path_loss_factor. simpl.
    by rewrite lookup_insert_ne.
  - apply calculate_path_loss_factor_value.
  - intros Hnew. subst old. by rewrite Hnew.
Qed.

(** A link that has no factor yet, and a measured loss of 1.0: the factor
    becomes 0.9 x 2.0 + 0.1 x 1.0. *)
Lemma update_path_loss_factor_smooths_witness :
  let device := Samples.blank_device "aa:bb:cc:dd:ee:01" Samples.no_options in
  let scanner := Samples.blank_device "aa:bb:cc:dd:ee:02" Samples.no_options in
  Coordinator.path_loss_factors Samples.empty_coordinator
    !! path_key device scanner = None
  ∧ Coordinator.path_loss_factors
      (update_path_loss_factor device scanner
         (Qc_of_Z 1) Samples.empty_coordinator).2
    !! path_key device scanner
    = Some (dec 9 10 * dec 2 1 + dec 1 10 * Qc_of_Z 1)%Qc.
Proof.
  intros device scanner.
  pose proof (update_path_loss_factor_smooths device scanner
                (Qc_of_Z 1) Samples.empty_coordinator) as (_ & Hnew & _ & _ & Hold).
  split; [reflexivity|].
  rewrite Hnew. by rewrite (Hold eq_refl).
Defined.

Section distance_facts.
Context {P : Platform}.

Lemma float_pow_zero_exponent v : float_pow v (Q2Qc 0) = Return (Q2Qc 1).
Proof. unfold float_pow. by rewrite bool_decide_eq_true_2. Qed.

(** A power that goes to C's [pow] raises when the result is out of range,
    and only then. *)
Lemma float_pow_plain v w :
  v ≠ Q2Qc 0 → v ≠ Q2Qc 1 → w ≠ Q2Qc 0 →
  float_pow v w
  = if float_overflows (libm_pow v w) then Raise OverflowError
    else Return (libm_pow v w).
Proof. intros Hv0 Hv1 Hw. unfold float_pow. by rewrite !bool_decide_eq_false_2. Qed.

Lemma float_pow_Raise v w e :
  float_pow v w = Raise e
  ↔ (e = ZeroDivisionError ∧ v = Q2Qc 0 ∧ (w < Q2Qc 0)%Qc)
    ∨ (e = OverflowError ∧ w ≠ Q2Qc 0 ∧ v ≠ Q2Qc 0 ∧ v ≠ Q2Qc 1
       ∧ float_overflows (libm_pow v w) = true).
Proof.
  unfold float_pow.
  destruct (decide (w = Q2Qc 0)) as [Hw|Hw].
  { rewrite bool_decide_eq_true_2 by done. split; [done|].
    intros [(_ & _ & Hneg)|(_ & ? & _)]; [|done].
    subst w. by apply Qclt_not_eq in Hneg. }
  rewrite (bool_decide_eq_false_2 _ Hw).
  destruct (decide (v = Q2Qc 0)) as [Hv|Hv].
  { rewrite (bool_decide_eq_true_2 _ Hv).
    destruct (decide (w < Q2Qc 0)%Qc) as [Hneg|Hneg].
    - rewrite (bool_decide_eq_true_2 _ Hneg). split.
      + intros [= <-]. by left.
      + by intros [(-> & _)|(_ & _ & ? & _)].
    - rewrite (bool_decide_eq_false_2 _ Hneg). split; [done|].
      by intros [(_ & _ & ?)|(_ & _ & ? & _)]. }
  rewrite (bool_decide_eq_false_2 _ Hv).
  destruct (decide (v = Q2Qc 1)) as [Hone|Hone].
  { rewrite (bool_decide_eq_true_2 _ Hone). split; [done|].
    by intros [(_ & ? & _)|(_ & _ & _ & ? & _)]. }
  rewrite (bool_decide_eq_false_2 _ Hone).
  destruct (float_overflows (libm_pow v w)) eqn:Hrange.
  - split.
    + intros [= <-]. right. by repeat split.
    + by intros [(_ & ? & _)|(-> & _)].
  - split; [done|]. by intros [(_ & ? & _)|(_ & _ & _ & _ & ?)].
Qed.

Lemma rssi_exponent_zero rssi :
  ((Qc_of_Z (-59) - rssi) / (Qc_of_Z 10 * dec 2 1))%Qc = Q2Qc 0
  ↔ rssi = Qc_of_Z (-59).
Proof.
  split.
  - intros Hzero.
    assert (Hnum : (Qc_of_Z (-59) - rssi)%Qc = Q2Qc 0).
    { destruct (Qcmult_integral _ _ Hzero) as [?|Hinv]; [done|].
      exfalso. revert Hinv. qc_differ. }
    rewrite <- (Qcplus_0_l rssi). change 0%Qc with (Q2Qc 0).
    rewrite <- Hnum. ring.
  - intros ->. qc_compute.
Qed.
End distance_facts.

Section rssi_facts.
Context {P : Platform}.

Lemma calculate_distance_from_rssi_value self rssi :
  let power :=
    libm_pow (Qc_of_Z 10)
      ((Qc_of_Z (-59) - rssi) / (Qc_of_Z 10 * dec 2 1))%Qc in
  calculate_distance_from_rssi self rssi
  = if bool_decide (rssi = Qc_of_Z (-59)) then Return (Q2Qc 1)
    else if float_overflows power then Raise OverflowError
    else Return power.
Proof.
  intros power. unfold calculate_distance_from_rssi.
  destruct (decide (rssi = Qc_of_Z (-59))) as [Hrssi|Hrssi].
  - rewrite (bool_decide_eq_true_2 _ Hrssi).
    replace (_ / _)%Qc with (Q2Qc 0) by (symmetry; by apply rssi_exponent_zero).
    apply float_pow_zero_exponent.
  - rewrite (bool_decide_eq_false_2 _ Hrssi).
    apply float_pow_plain; [qc_differ..|]. by rewrite rssi_exponent_zero.
Qed.
End rssi_facts.

(** C7, as amended.  [calculate_distance_from_rssi] is the log-distance
    formula 10 ** ((ref - rssi) / (10 x n)) with the reference power -59 and
    the exponent 2.0 that are written in its body: it is the same for every
    coordinator, whatever its options; at rssi = -59 it returns exactly 1.0;
    at any other rssi it returns the power when that is within the range of
    a float, and raises [OverflowError] when it is not; it raises nothing
    else. *)
Theorem calculate_distance_from_rssi_fixed_constants (P : Platform)
    (self : Coordinator.t) (rssi : Qc) :
  let exponent := ((Qc_of_Z (-59) - rssi) / (Qc_of_Z 10 * dec 2 1))%Qc in
  let power := libm_pow (Qc_of_Z 10) exponent in
  calculate_distance_from_rssi self rssi = float_pow (Qc_of_Z 10) exponent
  ∧ calculate_distance_from_rssi self rssi
    = (if bool_decide (rssi = Qc_of_Z (-59)) then Return (Q2Qc 1)
       else if float_overflows power then Raise OverflowError
       else Return power)
  ∧ (∀ other : Coordinator.t,
       calculate_distance_from_rssi other rssi
       = calculate_distance_from_rssi self rssi)
  ∧ calculate_distance_from_rssi self (Qc_of_Z (-59)) = Return (Q2Qc 1)
  ∧ (∀ e, calculate_distance_from_rssi self rssi = Raise e →
          e = OverflowError ∧ rssi ≠ Qc_of_Z (-59)
          ∧ float_overflows power = true).
Proof.
  intros exponent power. split; [reflexivity|].
  split; [apply calculate_distance_from_rssi_value|].
  split; [reflexivity|]. split.
  - rewrite calculate_distance_from_rssi_value.
    by rewrite bool_decide_eq_true_2.
  - intros e. rewrite calculate_distance_from_rssi_value. fold exponent power.
    case_bool_decide as Hrssi; [done|].
    destruct (float_overflows power); [|done]. by intros [= <-].
Qed.

(** C7, as stated, fails.  With a reference power of -39 and an attenuation
    of 2.0 in the options, the formula of the claim gives 1.0 at rssi = -39,
    and the code gives 10 ** (-20 / 20) = 0.1.  And not every rssi has a
    distance: at rssi = -7000 the power 10 ** 347.05 is beyond the range of
    a float, and the code raises [OverflowError]. *)
Lemma configured_reference_power_counterexample :
  let configured :=
    mk_options None None None (Some (Qc_of_Z (-39))) (Some (dec 2 1)) in
  let self := Coordinator.mk configured ∅ ∅ ∅ [] true true in
  let rssi := Qc_of_Z (-39) in
  CONF_REF_POWER (Coordinator.options self) = Some rssi
  ∧ float_pow (P := Samples.platform) (Qc_of_Z 10)
      ((Qc_of_Z (-39) - rssi) / (Qc_of_Z 10 * dec 2 1))%Qc = Return (Q2Qc 1)
  ∧ calculate_distance_from_rssi (P := Samples.platform) self rssi
    = Return (dec 1 10)
  ∧ dec 1 10 ≠ Q2Qc 1
  ∧ calculate_distance_from_rssi (P := Samples.platform) self
      (Qc_of_Z (-7000))
    = Raise OverflowError.
Proof.
  intros configured self rssi. split; [reflexivity|].
  split; [|split; [|split]].
  - replace ((Qc_of_Z (-39) - rssi) / (Qc_of_Z 10 * dec 2 1))%Qc
      with (Q2Qc 0) by qc_compute.
    apply float_pow_zero_exponent.
  - by vm_compute.
  - qc_differ.
  - by vm_compute.
Qed.

(** ** Address keys *)

Lemma lower_ascii_idem c : lower_ascii (lower_ascii c) = lower_ascii c.
Proof. by destruct c as [[] [] [] [] [] [] [] []]. Qed.

Lemma lower_idem s : lower (lower s) = lower s.
Proof. induction s as [|c s IH]; simpl; [done|]. by rewrite lower_ascii_idem, IH. Qed.

Lemma length_lower s : String.length (lower s) = String.length s.
Proof. induction s as [|c s IH]; simpl; [done|]. by rewrite IH. Qed.

Lemma lower_app s1 s2 : lower (s1 +:+ s2) = lower s1 +:+ lower s2.
Proof.
  induction s1 as [|c s1 IH]; [done|].
  change (String (lower_ascii c) (lower (s1 +:+ s2))
          = String (lower_ascii c) (lower s1 +:+ lower s2)).
  by rewrite IH.
Qed.

Lemma lower_substring n m s :
  lower (String.substring n m s) = String.substring n m (lower s).
Proof.
  revert n m.
  induction s as [|c s IH]; intros [|n] [|m]; simpl; by rewrite ?IH.
Qed.

Lemma lower_concat sep l :
  lower (String.concat sep l) = String.concat (lower sep) (lower <$> l).
Proof.
  induction l as [|s [|s' l] IH]; [done..|].
  change (lower (s +:+ sep +:+ String.concat sep (s' :: l))
          = lower s +:+ lower sep +:+ String.concat (lower sep) (lower <$> s' :: l)).
  by rewrite !lower_app, IH.
Qed.

Lemma lower_colon_pairs s : lower (colon_pairs s) = colon_pairs (lower s).
Proof.
  unfold colon_pairs. rewrite lower_concat. simpl.
  by rewrite !lower_substring.
Qed.

(** A character is caseless when each of the 256 characters says so. *)
Lemma caseless_by_cases c :
  forallb
    (λ n, bool_decide (lower_ascii (ascii_of_nat n) = c ↔ ascii_of_nat n = c))
    (seq 0 256) = true →
  caseless c.
Proof.
  intros Hall c'. rewrite forallb_forall in Hall.
  specialize (Hall (nat_of_ascii c')). rewrite ascii_nat_embedding in Hall.
  eapply bool_decide_eq_true_1, Hall, in_seq.
  pose proof (nat_ascii_bounded c'). lia.
Qed.

Lemma caseless_colon : caseless ":".
Proof. apply caseless_by_cases. by vm_compute. Qed.
Lemma caseless_dash : caseless "-".
Proof. apply caseless_by_cases. by vm_compute. Qed.
Lemma caseless_dot : caseless ".".
Proof. apply caseless_by_cases. by vm_compute. Qed.

Lemma count_char_lower c s :
  caseless c → count_char c (lower s) = count_char c s.
Proof.
  intros Hc. unfold caseless in Hc.
  induction s as [|c' s IH]; simpl; [done|]. rewrite IH. f_equal.
  destruct (decide (c' = c)) as [->|Hne].
  - rewrite (bool_decide_eq_true_2 (c = c)) by done.
    rewrite bool_decide_eq_true_2; [done|]. by apply Hc.
  - rewrite (bool_decide_eq_false_2 (c' = c)) by done.
    rewrite bool_decide_eq_false_2; [done|].
    intros H. by apply (proj1 (Hc c')) in H.
Qed.

Lemma remove_char_lower c s :
  caseless c → lower (remove_char c s) = remove_char c (lower s).
Proof.
  intros Hc. unfold caseless in Hc.
  induction s as [|c' s IH]; simpl; [done|].
  destruct (decide (c' = c)) as [->|Hne].
  - rewrite (bool_decide_eq_true_2 (c = c)) by done.
    rewrite bool_decide_eq_true_2; [done|]. by apply Hc.
  - rewrite (bool_decide_eq_false_2 (c' = c)) by done.
    rewrite bool_decide_eq_false_2
      by (intros H; by apply (proj1 (Hc c')) in H).
    simpl. by rewrite IH.
Qed.

Lemma strip_separators_lower mac :
  lower (strip_separators mac) = strip_separators (lower mac).
Proof.
  unfold strip_separators.
  rewrite !length_lower, !count_char_lower
    by auto using caseless_dash, caseless_dot.
  destruct (bool_decide (String.length mac = 17 ∧ count_char "-" mac = 5)%nat).
  { apply remove_char_lower, caseless_dash. }
  destruct (bool_decide (String.length mac = 14 ∧ count_char "." mac = 2)%nat).
  { apply remove_char_lower, caseless_dot. }
  done.
Qed.

(** Home Assistant's [format_mac] commutes with [lower]. *)
Lemma format_mac_ha_lower mac :
  lower (format_mac_ha mac) = format_mac_ha (lower mac).
Proof.
  unfold format_mac_ha.
  rewrite <- strip_separators_lower.
  rewrite !length_lower, count_char_lower by apply caseless_colon.
  destruct (bool_decide (String.length mac = 17 ∧ count_char ":" mac = 5)%nat).
  { by rewrite lower_idem. }
  destruct (bool_decide (String.length (strip_separators mac) = 12)%nat);
    [|done].
  by rewrite lower_colon_pairs, !lower_idem.
Qed.

Section device_table_facts.
Context {P : Platform}.

Lemma mac_key_lower address : lower (mac_key address) = mac_key address.
Proof. apply lower_idem. Qed.

Lemma mac_key_ignores_case a b :
  (∀ s, format_mac s = format_mac_ha s) →
  lower a = lower b → mac_key a = mac_key b.
Proof.
  intros Hha Hab. unfold mac_key.
  by rewrite !Hha, !format_mac_ha_lower, Hab.
Qed.

Lemma get_or_create_stored address self :
  Coordinator.devices (_get_or_create_device address self).2 !! mac_key address
  = Some (_get_or_create_device address self).1.
Proof.
  unfold _get_or_create_device, _get_device.
  destruct (Coordinator.devices self !! mac_key address) eqn:Hkey; simpl.
  - done.
  - by rewrite lookup_insert_eq.
Qed.

Lemma get_or_create_known address self device :
  Coordinator.devices self !! mac_key address = Some device →
  _get_or_create_device address self = (device, self).
Proof. intros Hkey. unfold _get_or_create_device, _get_device. by rewrite Hkey. Qed.

Lemma get_or_create_keys address self k :
  is_Some (Coordinator.devices (_get_or_create_device address self).2 !! k) →
  k = mac_key address ∨ is_Some (Coordinator.devices self !! k).
Proof.
  unfold _get_or_create_device, _get_device.
  destruct (Coordinator.devices self !! mac_key address) eqn:Hkey; simpl.
  - auto.
  - destruct (decide (k = mac_key address)) as [->|Hne]; [auto|].
    rewrite lookup_insert_ne by done. auto.
Qed.
End device_table_facts.

(** C10.  A second call of [_get_or_create_device] with an address that has
    the same key [format_mac(address).lower()] returns the record the first
    call returned and leaves the coordinator, so the size of the table, as the
    first call left it; the record is stored under that key; a table whose
    keys are all in lower case stays so, and two keys of such a table that
    differ only in case are one key; and with Home Assistant's [format_mac]
    two addresses that differ only in letter case have the same key. *)
Theorem get_or_create_device_idempotent (P : Platform)
    (self : Coordinator.t) (a b : string) :
  let first := _get_or_create_device a self in
  let second := _get_or_create_device b first.2 in
  let lower_keys (devices : gmap string Device.t) :=
    ∀ k, is_Some (devices !! k) → lower k = k in
  (mac_key a = mac_key b →
     second.1 = first.1 ∧ second.2 = first.2
     ∧ size (Coordinator.devices second.2) = size (Coordinator.devices first.2))
  ∧ Coordinator.devices first.2 !! mac_key a = Some first.1
  ∧ (lower_keys (Coordinator.devices self) →
       lower_keys (Coordinator.devices first.2)
       ∧ ∀ k1 k2, is_Some (Coordinator.devices first.2 !! k1) →
                  is_Some (Coordinator.devices first.2 !! k2) →
                  lower k1 = lower k2 → k1 = k2)
  ∧ ((∀ s, format_mac s = format_mac_ha s) →
       lower a = lower b → mac_key a = mac_key b).
Proof.
  intros first second lower_keys. split; [|split; [|split]].
  - intros Hkey.
    assert (Hsecond : second = first).
    { subst second. rewrite (surjective_pairing first) at 2.
      apply get_or_create_known. rewrite <- Hkey. apply get_or_create_stored. }
    by rewrite Hsecond.
  - apply get_or_create_stored.
  - intros Hlower.
    assert (Hafter : lower_keys (Coordinator.devices first.2)).
    { intros k Hk. apply get_or_create_keys in Hk as [->|Hk].
      - apply mac_key_lower.
      - by apply Hlower. }
    split; [done|]. intros k1 k2 Hk1 Hk2 Heq.
    by rewrite <- (Hafter k1 Hk1), <- (Hafter k2 Hk2).
  - apply mac_key_ignores_case.
Qed.

(** The same MAC, in upper case with colons and in lower case with dashes:
    one record, and a table of one. *)
Lemma get_or_create_device_idempotent_witness :
  let a := "AA:BB:CC:DD:EE:FF" in
  let b := "aa-bb-cc-dd-ee-ff" in
  let first :=
    _get_or_create_device (P := Samples.platform) a Samples.empty_coordinator in
  let second := _get_or_create_device (P := Samples.platform) b first.2 in
  mac_key (P := Samples.platform) a = mac_key (P := Samples.platform) b
  ∧ second.1 = first.1 ∧ second.2 = first.2
  ∧ size (Coordinator.devices second.2) = size (Coordinator.devices first.2).
Proof.
  intros a b first second.
  assert (Hkey : mac_key (P := Samples.platform) a
                 = mac_key (P := Samples.platform) b) by reflexivity.
  split; [exact Hkey|].
  exact (proj1 (get_or_create_device_idempotent Samples.platform
                  Samples.empty_coordinator a b) Hkey).
Defined.

(** ** Metadevice sources *)

Section beacon_source_facts.
Context {C : Consts}.

(** The iBeacon path keeps a list within the bound, and puts a new source at
    its head. *)
Lemma insert_ibeacon_source_bounded address beacon_sources :
  (length beacon_sources ≤ HIST_KEEP_COUNT)%nat →
  (length (insert_ibeacon_source address beacon_sources) ≤ HIST_KEEP_COUNT)%nat.
Proof.
  intros Hlen. unfold insert_ibeacon_source.
  case_bool_decide; [|done]. rewrite length_take. lia.
Qed.

Lemma insert_ibeacon_source_head address beacon_sources :
  address ∉ beacon_sources → (0 < HIST_KEEP_COUNT)%nat →
  head (insert_ibeacon_source address beacon_sources) = Some address.
Proof.
  intros Hnew Hpos. unfold insert_ibeacon_source.
  rewrite bool_decide_eq_true_2 by done.
  destruct HIST_KEEP_COUNT; [lia|done].
Qed.
End beacon_source_facts.

Lemma rotating_addresses_head n :
  head (Samples.rotating_addresses (S n))
  ≠ head (Samples.rotating_addresses n).
Proof.
  destruct n as [|n]; [done|].
  change (Some (if Nat.even (S n) then "aa:aa:aa:aa:aa:0a" else "aa:aa:aa:aa:aa:0b")
          ≠ Some (if Nat.even n then "aa:aa:aa:aa:aa:0a" else "aa:aa:aa:aa:aa:0b")).
  rewrite Nat.even_succ, <- Nat.negb_even.
  by destruct (Nat.even n).
Qed.

Lemma length_rotating_addresses n : length (Samples.rotating_addresses n) = n.
Proof. induction n as [|n IH]; simpl; [done|]. by rewrite IH. Qed.

Lemma private_ble_sources_rotating n :
  foldr insert_private_ble_source [] (Samples.rotating_addresses n)
  = Samples.rotating_addresses n.
Proof.
  induction n as [|n IH]; [done|].
  change (Samples.rotating_addresses (S n))
    with ((if Nat.even n then "aa:aa:aa:aa:aa:0a" else "aa:aa:aa:aa:aa:0b")
          :: Samples.rotating_addresses n) at 1.
  rewrite foldr_cons, IH. unfold insert_private_ble_source.
  rewrite bool_decide_eq_true_2; [done|]. right.
  intros Hhead. by apply (rotating_addresses_head n).
Qed.

(** C9.  The bound fails on the private-BLE path: a device that alternates
    between two addresses has every change put at the head of
    [beacon_sources] and nothing removed, so after [HIST_KEEP_COUNT + 1]
    changes the list holds [HIST_KEEP_COUNT + 1] entries. *)
Theorem private_ble_sources_exceed_bound (C : Consts) :
  let history := Samples.rotating_addresses (S HIST_KEEP_COUNT) in
  let beacon_sources := foldr insert_private_ble_source [] history in
  beacon_sources = history
  ∧ (HIST_KEEP_COUNT < length beacon_sources)%nat.
Proof.
  intros history beacon_sources. subst beacon_sources history.
  rewrite private_ble_sources_rotating, length_rotating_addresses.
  split; [done|lia].
Qed.

(** The same through the coordinator: eleven address changes of one private
    device, the bound being ten, leave eleven sources on its metadevice. *)
Lemma discover_private_ble_entity_unbounded :
  let discover address :=
    discover_private_ble_entity (P := Samples.platform)
      "0123456789abcdef0123456789abcdef" (Some "phone") (Some address) in
  let self :=
    foldr discover Samples.empty_coordinator (Samples.rotating_addresses 11) in
  (length ∘ Device.beacon_sources)
    <$> Coordinator.devices self !! "0123456789abcdef0123456789abcdef"
  = Some 11%nat
  ∧ (HIST_KEEP_COUNT (Consts := Samples.consts) < 11)%nat.
Proof. split; [by vm_compute|simpl; lia]. Qed.

(** ** The obstruction map *)

Lemma py_int_mono (x y : Qc) : (x ≤ y)%Qc → (py_int x ≤ py_int y)%Z.
Proof.
  unfold Qcle, Qle, py_int.
  destruct (this x) as [nx dx], (this y) as [ny dy]. simpl. intros Hle.
  rewrite <- (Z.quot_mul_cancel_r nx (Zpos dx) (Zpos dy)) by done.
  rewrite <- (Z.quot_mul_cancel_r ny (Zpos dy) (Zpos dx)) by done.
  rewrite (Z.mul_comm (Zpos dy) (Zpos dx)).
  apply Z.quot_le_mono; lia.
Qed.

Lemma py_min_le_max (a b : Qc) : (py_min a b ≤ py_max a b)%Qc.
Proof.
  unfold py_min, py_max.
  destruct (decide (b < a)%Qc) as [Hba|Hba], (decide (a < b)%Qc) as [Hab|Hab].
  - destruct (irreflexivity Qclt a). by etrans.
  - rewrite (bool_decide_eq_true_2 _ Hba), (bool_decide_eq_false_2 _ Hab).
    by apply Qclt_le_weak.
  - rewrite (bool_decide_eq_false_2 _ Hba), (bool_decide_eq_true_2 _ Hab).
    by apply Qclt_le_weak.
  - rewrite (bool_decide_eq_false_2 _ Hba), (bool_decide_eq_false_2 _ Hab).
    apply Qcle_refl.
Qed.

(** The range of either loop of [count_wall_crossings] has a first grid line. *)
Lemma grid_range_cons (a b : Qc) :
  ∃ rest,
    py_range (py_int (py_min a b)) (py_int (py_max a b) + 1)
    = py_int (py_min a b) :: rest.
Proof.
  pose proof (py_int_mono _ _ (py_min_le_max a b)) as Hle.
  unfold py_range. rewrite seqZ_cons by lia. eauto.
Qed.

Section obstruction_facts.
Context {P : Platform}.

Lemma get_field_strength_estimate_empty self x y :
  Coordinator.obstruction_map self = [] →
  get_field_strength_estimate self x y = Raise ValueError.
Proof. intros Hmap. unfold get_field_strength_estimate. by rewrite Hmap. Qed.

Lemma count_wall_crossings_empty self start end_ :
  Coordinator.obstruction_map self = [] →
  count_wall_crossings self start end_ = Raise ValueError.
Proof.
  intros Hmap. unfold count_wall_crossings.
  destruct (grid_range_cons (coord0 start) (coord0 end_)) as [rest ->].
  simpl. unfold crossing_x.
  by rewrite get_field_strength_estimate_empty.
Qed.

Lemma min_from_elem_of {A} (key : A → Qc) best l :
  Py.min_from key best l ∈ best :: l.
Proof.
  revert best. induction l as [|x l IH]; intros best; simpl.
  - apply elem_of_cons. by left.
  - case_bool_decide.
    + apply elem_of_cons. right. apply IH.
    + destruct (proj1 (elem_of_cons _ _ _) (IH best)) as [->|Hin].
      * apply elem_of_cons. by left.
      * apply elem_of_cons. right. apply elem_of_cons. by right.
Qed.

(** No element has a smaller key than the one [min] picks. *)
Lemma min_from_least {A} (key : A → Qc) best l x :
  x ∈ best :: l → (key (Py.min_from key best l) ≤ key x)%Qc.
Proof.
  revert best x. induction l as [|x' l IH]; intros best x; simpl.
  - intros ->%list_elem_of_singleton. apply Qcle_refl.
  - intros Hx.
    assert (Hhere : ∀ z, z ∈ z :: l) by (intros z; apply elem_of_cons; by left).
    case_bool_decide as Hlt.
    + apply elem_of_cons in Hx as [->|Hx].
      * eapply Qcle_trans; [apply (IH x' x'), Hhere|]. by apply Qclt_le_weak.
      * by apply IH.
    + apply elem_of_cons in Hx as [->|Hx]; [apply IH, Hhere|].
      apply elem_of_cons in Hx as [->|Hx].
      * eapply Qcle_trans; [apply (IH best best), Hhere|].
        by apply Qcnot_lt_le.
      * apply IH. apply elem_of_cons. by right.
Qed.

(** On a map that has entries the lookup returns: the strength stored at a
    point of the map that no other point beats in distance to [(x, y)]. *)
Lemma get_field_strength_estimate_nearest self x y :
  Coordinator.obstruction_map self ≠ [] →
  ∃ point,
    get_field_strength_estimate self x y = Return (field_estimate self x y)
    ∧ (point, field_estimate self x y) ∈ Coordinator.obstruction_map self
    ∧ ∀ other, other ∈ (Coordinator.obstruction_map self).*1 →
        (hypot (point.1 - x) (point.2 - y)
         ≤ hypot (other.1 - x) (other.2 - y))%Qc.
Proof.
  intros Hmap.
  unfold field_estimate, get_field_strength_estimate, obstruction_at.
  destruct (Coordinator.obstruction_map self) as [|kv map]; [done|].
  cbn [fmap list_fmap Py.min_by Py.bind].
  set (key := λ p : Qc * Qc, hypot (p.1 - x)%Qc (p.2 - y)%Qc).
  pose proof (min_from_elem_of key kv.1 map.*1) as Hin.
  pose proof (min_from_least key kv.1 map.*1) as Hleast.
  revert Hin Hleast. generalize (Py.min_from key kv.1 map.*1).
  intros nearest Hin Hleast.
  change (kv.1 :: map.*1) with (kv :: map).*1 in Hin.
  apply list_elem_of_fmap in Hin as (kv' & Hkey & Hkv').
  destruct (list_find_elem_of (λ kv0, kv0.1 = nearest) (kv :: map) kv')
    as [[i found] Hfound]; [done..|].
  rewrite Hfound. apply list_find_Some in Hfound as (Hi & Hpoint & _).
  exists nearest. split; [done|]. split.
  - simpl in Hpoint. rewrite <- Hpoint, <- surjective_pairing.
    by eapply list_elem_of_lookup_2.
  - intros other Hother. by apply Hleast.
Qed.

Lemma get_field_strength_estimate_Return self x y :
  Coordinator.obstruction_map self ≠ [] →
  get_field_strength_estimate self x y = Return (field_estimate self x y).
Proof.
  intros Hmap.
  by destruct (get_field_strength_estimate_nearest self x y Hmap) as (? & ? & _).
Qed.

Lemma for_each_crossing_x self ymid n xs :
  Coordinator.obstruction_map self ≠ [] →
  Py.for_each (crossing_x self ymid) n xs
  = Return (n + Z.of_nat (length (filter (rising_x self ymid) xs)))%Z.
Proof.
  intros Hmap. revert n. induction xs as [|x xs IH]; intros n; simpl.
  - f_equal. lia.
  - unfold crossing_x at 1.
    rewrite !get_field_strength_estimate_Return by done. simpl.
    rewrite IH, filter_cons. unfold rising_x at 2.
    case_bool_decide; case_decide; try done; simpl; f_equal; lia.
Qed.

Lemma for_each_crossing_y self xmid n ys :
  Coordinator.obstruction_map self ≠ [] →
  Py.for_each (crossing_y self xmid) n ys
  = Return (n + Z.of_nat (length (filter (rising_y self xmid) ys)))%Z.
Proof.
  intros Hmap. revert n. induction ys as [|y ys IH]; intros n; simpl.
  - f_equal. lia.
  - unfold crossing_y at 1.
    rewrite !get_field_strength_estimate_Return by done. simpl.
    rewrite IH, filter_cons. unfold rising_y at 2.
    case_bool_decide; case_decide; try done; simpl; f_equal; lia.
Qed.
End obstruction_facts.

(** ** [apply_path_loss_factor] *)

Section apply_path_loss_factor_facts.
Context {P : Platform}.

Lemma count_wall_crossings_ext self other start end_ :
  Coordinator.obstruction_map other = Coordinator.obstruction_map self →
  count_wall_crossings other start end_ = count_wall_crossings self start end_.
Proof.
  intros Hmap.
  unfold count_wall_crossings, crossing_x, crossing_y,
    get_field_strength_estimate, obstruction_at.
  by rewrite Hmap.
Qed.

Lemma calculate_path_loss_factor_map device scanner self :
  Coordinator.obstruction_map (calculate_path_loss_factor device scanner self).2
  = Coordinator.obstruction_map self.
Proof.
  unfold calculate_path_loss_factor.
  by destruct (Coordinator.path_loss_factors self !! _).
Qed.

(** The method, step by step, for a device and a scanner that have
    positions. *)
Lemma apply_path_loss_factor_run self device scanner start end_ :
  Device.position device = Some start →
  Device.position scanner = Some end_ →
  let factor :=
    default (dec 2 1)
      (Coordinator.path_loss_factors self !! path_key device scanner) in
  let self' := (calculate_path_loss_factor device scanner self).2 in
  let distance :=
    hypot (coord0 end_ - coord0 start)%Qc (coord1 end_ - coord1 start)%Qc in
  apply_path_loss_factor device scanner self
  = match float_pow distance factor with
    | Raise e => (Raise e, self')
    | Return power =>
        match count_wall_crossings self start end_ with
        | Raise e => (Raise e, self')
        | Return wall_crossings =>
            match float_pow (dec 1 2) (Qc_of_Z wall_crossings) with
            | Raise e => (Raise e, self')
            | Return attenuation =>
                (Return
                   (update_distance_to_scanner device scanner
                      (power * attenuation)%Qc), self')
            end
        end
    end.
Proof.
  intros Hstart Hend factor self' distance.
  rewrite <- (count_wall_crossings_ext self self' start end_)
    by apply calculate_path_loss_factor_map.
  unfold apply_path_loss_factor, method_bind, method_read, method_ret,
    get_position.
  pose proof (calculate_path_loss_factor_value device scanner self) as Hvalue.
  fold factor in Hvalue. fold self'.
  destruct (calculate_path_loss_factor device scanner self) as [result after].
  simpl in Hvalue, self'. subst result self'.
  rewrite Hstart, Hend. fold distance.
  destruct (float_pow distance factor); [|done].
  destruct (count_wall_crossings after start end_); [|done].
  by destruct (float_pow (dec 1 2) _).
Qed.

(** With a map that has no entry the call always raises: the exception of
    the power when that raises, and else the [ValueError] of [min] on an
    empty sequence. *)
Lemma apply_path_loss_factor_empty_map self device scanner start end_ :
  Coordinator.obstruction_map self = [] →
  Device.position device = Some start →
  Device.position scanner = Some end_ →
  (apply_path_loss_factor device scanner self).1
  = match
      float_pow
        (hypot (coord0 end_ - coord0 start)%Qc (coord1 end_ - coord1 start)%Qc)
        (default (dec 2 1)
           (Coordinator.path_loss_factors self !! path_key device scanner))
    with
    | Return _ => Raise ValueError
    | Raise e => Raise e
    end.
Proof.
  intros Hmap Hstart Hend.
  rewrite (apply_path_loss_factor_run self device scanner start end_) by done.
  destruct (float_pow _ _) as [power|e]; [|done].
  by rewrite count_wall_crossings_empty.
Qed.

(** When the power raises, so does the call. *)
Lemma apply_path_loss_factor_power_raises self device scanner start end_ e :
  Device.position device = Some start →
  Device.position scanner = Some end_ →
  float_pow
    (hypot (coord0 end_ - coord0 start)%Qc (coord1 end_ - coord1 start)%Qc)
    (default (dec 2 1)
       (Coordinator.path_loss_factors self !! path_key device scanner))
  = Raise e →
  (apply_path_loss_factor device scanner self).1 = Raise e.
Proof.
  intros Hstart Hend Hpow.
  rewrite (apply_path_loss_factor_run self device scanner start end_) by done.
  by rewrite Hpow.
Qed.
End apply_path_loss_factor_facts.

(** C3.  The update cycle does raise past its own boundary: with an
    obstruction map that has no entry (as [__init__] leaves it), a device at
    (3,4) and a scanner at (0,0) in the table, one advertisement of the device
    heard by the scanner makes [_async_update_data] end with the [ValueError]
    that [min] raises in [get_field_strength_estimate]. *)
Theorem update_cycle_raises_on_empty_obstruction_map :
  Coordinator.obstruction_map Samples.unmapped_coordinator = []
  ∧ (_async_update_data (P := Samples.platform) (Y := Samples.cycle)
       [Samples.heard_once] Samples.unmapped_coordinator).1
    = Raise ValueError.
Proof. split; [reflexivity|]. by vm_compute. Qed.

(** C8.  [apply_path_loss_factor] does not compute a distance for every
    device and scanner that have positions.  On an obstruction map without
    entries, which is the map that [__init__] leaves and that nothing in the
    file fills, every call raises: the [ValueError] of [min] on an empty
    sequence, unless the power has raised before.  With entries in the map
    the call still raises [ZeroDivisionError] when the two positions are at
    distance zero and the factor of the link is negative, and
    [OverflowError] when the distance raised to the factor is out of the
    range of a float.  In each case nothing is handed to
    [update_distance_to_scanner]. *)
Theorem apply_path_loss_factor_raises (P : Platform) (self : Coordinator.t)
    (device scanner : Device.t) (start end_ : position) :
  Device.position device = Some start →
  Device.position scanner = Some end_ →
  let factor :=
    default (dec 2 1)
      (Coordinator.path_loss_factors self !! path_key device scanner) in
  let distance :=
    hypot (coord0 end_ - coord0 start)%Qc (coord1 end_ - coord1 start)%Qc in
  (Coordinator.obstruction_map self = [] →
     (apply_path_loss_factor device scanner self).1
     = match float_pow distance factor with
       | Return _ => Raise ValueError
       | Raise e => Raise e
       end)
  ∧ (distance = Q2Qc 0 → (factor < Q2Qc 0)%Qc →
     (apply_path_loss_factor device scanner self).1 = Raise ZeroDivisionError)
  ∧ (factor ≠ Q2Qc 0 → distance ≠ Q2Qc 0 → distance ≠ Q2Qc 1 →
     float_overflows (libm_pow distance factor) = true →
     (apply_path_loss_factor device scanner self).1 = Raise OverflowError).
Proof.
  intros Hstart Hend factor distance. split; [|split].
  - intros Hmap. by apply apply_path_loss_factor_empty_map.
  - intros Hzero Hneg.
    apply (apply_path_loss_factor_power_raises self device scanner start end_);
      [done..|].
    apply float_pow_Raise. left. by repeat split.
  - intros Hfactor Hd0 Hd1 Hrange.
    apply (apply_path_loss_factor_power_raises self device scanner start end_);
      [done..|].
    apply float_pow_Raise. right. by repeat split.
Qed.

(** The device at (3,4) and the scanner at (0,0) on the map without entries:
    [ValueError].  A scanner against itself, with a factor of -1 for the
    link, on a map that has entries: [ZeroDivisionError]. *)
Lemma apply_path_loss_factor_raises_witness :
  (apply_path_loss_factor (P := Samples.platform) Samples.far_device
     Samples.origin_scanner Samples.unmapped_coordinator).1
  = Raise ValueError
  ∧ (apply_path_loss_factor (P := Samples.platform) Samples.origin_scanner
       Samples.origin_scanner
       (Coordinator.with_path_loss_factors
          {[ path_key Samples.origin_scanner Samples.origin_scanner
             := Qc_of_Z (-1) ]}
          Samples.mapped_coordinator)).1
    = Raise ZeroDivisionError.
Proof.
  split.
  - rewrite (proj1 (apply_path_loss_factor_raises Samples.platform
                      Samples.unmapped_coordinator Samples.far_device
                      Samples.origin_scanner (PyTuple (Qc_of_Z 3) (Qc_of_Z 4))
                      (PyTuple (Qc_of_Z 0) (Qc_of_Z 0)) eq_refl eq_refl)
               eq_refl).
    by vm_compute.
  - apply (proj1 (proj2 (apply_path_loss_factor_raises Samples.platform
                           (Coordinator.with_path_loss_factors
                              {[ path_key Samples.origin_scanner
                                   Samples.origin_scanner := Qc_of_Z (-1) ]}
                              Samples.mapped_coordinator)
                           Samples.origin_scanner Samples.origin_scanner
                           (PyTuple (Qc_of_Z 0) (Qc_of_Z 0))
                           (PyTuple (Qc_of_Z 0) (Qc_of_Z 0)) eq_refl eq_refl))).
    + qc_compute.
    + by vm_compute.
Defined.

(** X18.  For a device and a scanner that have positions, on an obstruction
    map that has entries, unless the two positions are at distance zero while
    the path-loss factor is negative, and when neither power is out of the
    range of a float, [apply_path_loss_factor] returns normally, having
    handed to [update_distance_to_scanner] the product of the distance
    between the two positions raised to the factor of the link (2.0 when the
    link is new, which it then records) and of 0.5 raised to the number of
    wall crossings; the crossings are the grid lines [x] between the
    truncated abscissae where the estimate rises from [x] to [x + 0.5] on the
    horizontal through the mean ordinate, plus the same count along the
    vertical through the mean abscissa. *)
Theorem apply_path_loss_factor_adjusts (P : Platform)
    (self : Coordinator.t) (device scanner : Device.t) (start end_ : position) :
  Device.position device = Some start →
  Device.position scanner = Some end_ →
  Coordinator.obstruction_map self ≠ [] →
  let factor :=
    default (dec 2 1)
      (Coordinator.path_loss_factors self !! path_key device scanner) in
  let distance :=
    hypot (coord0 end_ - coord0 start)%Qc (coord1 end_ - coord1 start)%Qc in
  ¬ (distance = Q2Qc 0 ∧ (factor < Q2Qc 0)%Qc) →
  float_overflows (libm_pow distance factor) = false →
  let x1 := coord0 start in
  let y1 := coord1 start in
  let x2 := coord0 end_ in
  let y2 := coord1 end_ in
  let xs := py_range (py_int (py_min x1 x2)) (py_int (py_max x1 x2) + 1) in
  let ys := py_range (py_int (py_min y1 y2)) (py_int (py_max y1 y2) + 1) in
  let wall_crossings :=
    (Z.of_nat (length (filter (rising_x self ((y1 + y2) / dec 2 1)%Qc) xs))
     + Z.of_nat (length (filter (rising_y self ((x1 + x2) / dec 2 1)%Qc) ys)))%Z in
  float_overflows (libm_pow (dec 1 2) (Qc_of_Z wall_crossings)) = false →
  ∃ power attenuation,
    float_pow distance factor = Return power
    ∧ float_pow (dec 1 2) (Qc_of_Z wall_crossings) = Return attenuation
    ∧ count_wall_crossings self start end_ = Return wall_crossings
    ∧ (apply_path_loss_factor device scanner self).1
      = Return (update_distance_to_scanner device scanner
                  (power * attenuation)%Qc)
    ∧ Coordinator.path_loss_factors (apply_path_loss_factor device scanner self).2
      !! path_key device scanner = Some factor.
Proof.
  intros Hstart Hend Hmap factor distance Hdefined Hrange x1 y1 x2 y2 xs ys
    wall_crossings Hhalf.
  assert (Hcount : count_wall_crossings self start end_ = Return wall_crossings).
  { unfold count_wall_crossings. fold x1 y1 x2 y2. fold xs ys.
    rewrite for_each_crossing_x by done. simpl.
    rewrite for_each_crossing_y by done. f_equal. }
  destruct (float_pow distance factor) as [power|e] eqn:Hpow; last first.
  { apply float_pow_Raise in Hpow
      as [(_ & Hzero & Hneg)|(_ & _ & _ & _ & Hover)];
      [by destruct Hdefined|by rewrite Hrange in Hover]. }
  destruct (float_pow (dec 1 2) (Qc_of_Z wall_crossings))
    as [attenuation|e] eqn:Hatt; last first.
  { apply float_pow_Raise in Hatt
      as [(_ & Hzero & _)|(_ & _ & _ & _ & Hover)];
      [exfalso; revert Hzero; qc_differ|by rewrite Hhalf in Hover]. }
  exists power, attenuation.
  rewrite (apply_path_loss_factor_run self device scanner start end_) by done.
  fold factor distance. rewrite Hpow, Hcount, Hatt. simpl.
  repeat split. apply calculate_path_loss_factor_state.
Qed.

(** The device at (3,4) has a contact with the scanner at (0,0).  On a map
    of two samples the link is new, the distance 5 is squared, one wall is
    crossed, and the contact gets 25 x 0.5 = 12.5. *)
Lemma apply_path_loss_factor_adjusts_witness :
  (apply_path_loss_factor (P := Samples.platform) Samples.heard_device
     Samples.origin_scanner Samples.mapped_coordinator).1
  = Return (Samples.write_contact_distance Samples.heard_device
              Samples.origin_scanner (dec 25 2))
  ∧ Device.scanners
      (Samples.write_contact_distance Samples.heard_device
         Samples.origin_scanner (dec 25 2))
    = [("aa:aa:aa:aa:aa:01",
        Scanner.mk (Some "origin proxy") (Some (Qc_of_Z (-60)))
          (Some (dec 25 2)) None)].
Proof.
  destruct (apply_path_loss_factor_adjusts Samples.platform
              Samples.mapped_coordinator Samples.heard_device
              Samples.origin_scanner (PyTuple (Qc_of_Z 3) (Qc_of_Z 4))
              (PyTuple (Qc_of_Z 0) (Qc_of_Z 0)) eq_refl eq_refl)
    as (power & attenuation & Hpow & Hatt & _ & Hrun & _).
  - discriminate.
  - intros [Hzero _]. revert Hzero. qc_differ.
  - by vm_compute.
  - by vm_compute.
  - split; [|by vm_compute].
    rewrite Hrun. f_equal. f_equal.
    vm_compute in Hpow. vm_compute in Hatt.
    injection Hpow as <-. injection Hatt as <-. qc_compute.
Defined.

(** ** Area by closest scanner *)

Section area_facts.
Context {C : Consts} {P : Platform}.

Lemma in_radius_Some self scanner distance :
  in_radius self scanner = Some distance
  ↔ Scanner.rssi_distance scanner = Some distance
    ∧ (distance < max_radius self)%Qc.
Proof.
  unfold in_radius.
  destruct (Scanner.rssi_distance scanner) as [d|];
    [|split; [done|by intros [? _]]].
  case_bool_decide as Hradius; split.
  - by intros [= <-].
  - by intros [[= <-] _].
  - done.
  - intros [[= <-] ?]. by destruct Hradius.
Qed.

Lemma closer_scanner_out_of_radius self acc scanner :
  in_radius self scanner = None → closer_scanner self acc scanner = acc.
Proof.
  unfold in_radius, closer_scanner.
  destruct (Scanner.rssi_distance scanner); [|done].
  by case_bool_decide.
Qed.

Lemma closest_so_far_step self l acc scanner :
  closest_so_far self l acc →
  closest_so_far self (l ++ [scanner]) (closer_scanner self acc scanner).
Proof.
  intros Hacc. destruct (in_radius self scanner) as [d|] eqn:Hin.
  - pose proof Hin as [Hd Hradius]%in_radius_Some.
    assert (Hlast : (l ++ [scanner]) !! length l = Some scanner)
      by (by rewrite lookup_app_r, Nat.sub_diag by lia).
    assert (Hnew : ∀ bound : Qc,
      (∀ j other d', l !! j = Some other → in_radius self other = Some d' →
         (bound ≤ d')%Qc) →
      (d < bound)%Qc ∨ l = [] ∨ (∀ x, x ∈ l → in_radius self x = None) →
      closest_so_far self (l ++ [scanner]) (Some scanner)).
    { intros bound Hbound Hcase. exists (length l), d.
      split; [done|]. split; [done|].
      assert (Hold : ∀ j other d', (j < length l)%nat → l !! j = Some other →
                in_radius self other = Some d' → (d < d')%Qc).
      { intros j other d' _ Hj Hother.
        destruct Hcase as [Hlt|[->|Hnone]].
        - eapply Qclt_le_trans; [done|]. by eapply Hbound.
        - done.
        - rewrite (Hnone other) in Hother; [done|].
          by eapply list_elem_of_lookup_2. }
      split.
      - intros j other d' Hj Hother.
        destruct (decide (j < length l)%nat) as [Hlt|Hge].
        + rewrite lookup_app_l in Hj by done.
          apply Qclt_le_weak. by eapply Hold.
        + apply lookup_lt_Some in Hj as Hlen. rewrite length_app in Hlen.
          simpl in Hlen. replace j with (length l) in Hj by lia.
          rewrite Hlast in Hj. injection Hj as <-.
          rewrite Hin in Hother. injection Hother as <-. apply Qcle_refl.
      - intros j other d' Hlt Hj Hother.
        rewrite lookup_app_l in Hj by done. by eapply Hold. }
    unfold closer_scanner. rewrite Hd, bool_decide_eq_true_2 by done.
    destruct acc as [closest|]; simpl in Hacc.
    + destruct Hacc as (i & dc & Hi & Hc & Hleast & Hfirst).
      pose proof Hc as [Hdc _]%in_radius_Some. rewrite Hdc.
      case_bool_decide as Hlt.
      * apply (Hnew dc); [done|by left].
      * exists i, dc. split; [by apply lookup_app_l_Some|]. split; [done|].
        split.
        -- intros j other d' Hj Hother.
           destruct (decide (j < length l)%nat) as [Hjl|Hjl].
           ++ rewrite lookup_app_l in Hj by done. by eapply Hleast.
           ++ apply lookup_lt_Some in Hj as Hlen. rewrite length_app in Hlen.
              simpl in Hlen. replace j with (length l) in Hj by lia.
              rewrite Hlast in Hj. injection Hj as <-.
              rewrite Hin in Hother. injection Hother as <-.
              by apply Qcnot_lt_le.
        -- intros j other d' Hji Hj Hother.
           apply lookup_lt_Some in Hi as Hil.
           rewrite lookup_app_l in Hj by lia. by eapply Hfirst.
    + apply (Hnew d); [|by right; right].
      intros j other d' Hj Hother.
      rewrite (Hacc other) in Hother; [done|]. by eapply list_elem_of_lookup_2.
  - rewrite closer_scanner_out_of_radius by done.
    destruct acc as [closest|]; simpl in *.
    + destruct Hacc as (i & dc & Hi & Hc & Hleast & Hfirst).
      exists i, dc. split; [by apply lookup_app_l_Some|]. split; [done|].
      assert (Hsame : ∀ j other d', (l ++ [scanner]) !! j = Some other →
                in_radius self other = Some d' → l !! j = Some other).
      { intros j other d' Hj Hother.
        destruct (decide (j < length l)%nat) as [Hjl|Hjl].
        - by rewrite lookup_app_l in Hj.
        - apply lookup_lt_Some in Hj as Hlen. rewrite length_app in Hlen.
          simpl in Hlen. replace j with (length l) in Hj by lia.
          rewrite lookup_app_r, Nat.sub_diag in Hj by lia.
          injection Hj as <-. by rewrite Hin in Hother. }
      split.
      * intros j other d' Hj Hother. eapply Hleast; [|done]. by eapply Hsame.
      * intros j other d' Hji Hj Hother. eapply Hfirst; [done| |done].
        by eapply Hsame.
    + intros other [Hother| ->%list_elem_of_singleton]%elem_of_app; auto.
Qed.

Lemma closest_so_far_foldl self l acc rest :
  closest_so_far self l acc →
  closest_so_far self (l ++ rest) (foldl (closer_scanner self) acc rest).
Proof.
  revert l acc. induction rest as [|scanner rest IH]; intros l acc Hacc; simpl.
  - by rewrite app_nil_r.
  - replace (l ++ scanner :: rest) with ((l ++ [scanner]) ++ rest)
      by (by rewrite <- app_assoc).
    by apply IH, closest_so_far_step.
Qed.

Lemma closest_scanner_of_spec self device :
  closest_so_far self (Device.scanners device).*2 (closest_scanner_of self device).
Proof.
  unfold closest_scanner_of.
  apply (closest_so_far_foldl self [] None). by intros scanner ?%elem_of_nil.
Qed.
End area_facts.

(** C5.  For a device that is not a scanner, [_refresh_area_by_min_distance]
    returns normally.  When no contact has a distance below [max_radius], the
    five area fields are [None].  Otherwise there is a contact, at some place
    [i] of the iteration order, whose distance is below [max_radius], is at
    most the distance of every contact in the radius and is strictly less
    than that of every such contact before place [i]; the device gets its
    area id, the name the registry has for that area (or the placeholder
    naming the scanner), its distance, its rssi and its name.  Nothing else of
    the device changes. *)
Theorem refresh_area_by_min_distance_selects (C : Consts) (P : Platform)
    (self : Coordinator.t) (device : Device.t) :
  Device.is_scanner device = false →
  let contacts := (Device.scanners device).*2 in
  ((∀ scanner, scanner ∈ contacts → in_radius self scanner = None)
   ∧ _refresh_area_by_min_distance self device
     = Return (Device.with_area None None None None None device))
  ∨ ∃ i closest distance,
      contacts !! i = Some closest
      ∧ Scanner.rssi_distance closest = Some distance
      ∧ (distance < max_radius self)%Qc
      ∧ (∀ j other d, contacts !! j = Some other →
           in_radius self other = Some d → (distance ≤ d)%Qc)
      ∧ (∀ j other d, (j < i)%nat → contacts !! j = Some other →
           in_radius self other = Some d → (distance < d)%Qc)
      ∧ _refresh_area_by_min_distance self device
        = Return
            (Device.with_area (Scanner.area_id closest)
               (Some (match async_get_area (Scanner.area_id closest) with
                      | Some name => name
                      | None => "No area: " +:+ Py.str_opt (Scanner.name closest)
                      end))
               (Some distance) (Scanner.rssi closest) (Scanner.name closest)
               device).
Proof.
  intros Hdevice contacts.
  pose proof (closest_scanner_of_spec self device) as Hspec.
  unfold _refresh_area_by_min_distance. rewrite Hdevice.
  destruct (closest_scanner_of self device) as [closest|]; simpl in Hspec.
  - right. destruct Hspec as (i & distance & Hi & Hin & Hleast & Hfirst).
    pose proof Hin as [Hd Hradius]%in_radius_Some.
    exists i, closest, distance. rewrite Hd. by repeat split.
  - left. by split.
Qed.

(** Two contacts at 3 m, the kitchen's first: the kitchen wins the tie. *)
Lemma refresh_area_by_min_distance_selects_witness :
  Device.is_scanner Samples.tied_device = false
  ∧ Device.area_id
      <$> match _refresh_area_by_min_distance (C := Samples.consts)
                  (P := Samples.platform) Samples.empty_coordinator
                  Samples.tied_device with
          | Return device => Some device
          | Raise _ => None
          end
    = Some (Some "kitchen").
Proof.
  split; [reflexivity|].
  set (kitchen := Scanner.mk (Some "kitchen proxy") (Some (Qc_of_Z (-60)))
                    (Some (Qc_of_Z 3)) (Some "kitchen")).
  assert (Hkitchen : in_radius (C := Samples.consts) Samples.empty_coordinator
                       kitchen = Some (Qc_of_Z 3)) by reflexivity.
  destruct (refresh_area_by_min_distance_selects Samples.consts Samples.platform
              Samples.empty_coordinator Samples.tied_device eq_refl)
    as [[Hnone _]|(i & closest & distance & Hi & Hd & _ & _ & Hfirst & ->)].
  - rewrite (Hnone kitchen) in Hkitchen; [done|]. apply elem_of_cons. by left.
  - simpl. do 2 f_equal.
    destruct i as [|[|[|i]]]; simpl in Hi; [by injection Hi as <-| | |done].
    + exfalso. injection Hi as <-. injection Hd as <-.
      apply (irreflexivity Qclt (Qc_of_Z 3)).
      apply (Hfirst 0%nat kitchen); [lia|done|done].
    + exfalso. injection Hi as <-. injection Hd as <-.
      cut (Qc_of_Z 30 < Qc_of_Z 3)%Qc; [done|].
      apply (Hfirst 0%nat kitchen); [lia|done|done].
Defined.

(** ** Pruning *)

Global Instance stamp_le_trans : Transitive stamp_le.
Proof.
  intros [t1 a1] [t2 a2] [t3 a3]. unfold stamp_le. simpl.
  intros [H12|[-> H12]] [H23|[-> H23]].
  - left. by etrans.
  - by left.
  - by left.
  - right. split; [done|]. by etrans.
Qed.

Global Instance stamp_le_total : Total stamp_le.
Proof.
  intros [t1 a1] [t2 a2]. unfold stamp_le. simpl.
  destruct (decide (t1 < t2)%Qc) as [|H12]; [by left; left|].
  destruct (decide (t2 < t1)%Qc) as [|H21]; [by right; left|].
  assert (t1 = t2) as -> by (apply Qcle_antisym; by apply Qcnot_lt_le).
  destruct (total String.le a1 a2); [left|right]; by right.
Qed.


(** Deleting keys that are all in the table, each once, never raises and
    removes exactly these keys. *)
Lemma delete_each_distinct (prune_list : list string)
    (devices : gmap string Device.t) :
  NoDup prune_list →
  (∀ a, a ∈ prune_list → is_Some (devices !! a)) →
  ∃ after,
    delete_each prune_list devices = (Return (), after)
    ∧ (∀ a, after !! a = if decide (a ∈ prune_list) then None else devices !! a)
    ∧ size devices = (size after + length prune_list)%nat.
Proof.
  revert devices.
  induction prune_list as [|k prune_list IH]; intros devices Hdup Hin;
    cbn [delete_each length].
  - exists devices. split; [done|]. split; [|lia].
    intros a. by rewrite decide_False by apply not_elem_of_nil.
  - apply NoDup_cons in Hdup as [Hk Hdup].
    destruct (Hin k) as [d Hd]; [apply elem_of_cons; by left|]. rewrite Hd.
    destruct (IH (delete k devices) Hdup) as (after & Hrun & Hafter & Hsize).
    { intros a Ha. rewrite lookup_delete_ne by (by intros ->).
      apply Hin. apply elem_of_cons. by right. }
    exists after. split; [done|]. split.
    + intros a. rewrite Hafter.
      destruct (decide (a = k)) as [->|Hne].
      * rewrite (decide_False (P := k ∈ prune_list)) by done.
        rewrite decide_True by (apply elem_of_cons; by left).
        apply lookup_delete_eq.
      * rewrite lookup_delete_ne by done.
        destruct (decide (a ∈ prune_list)) as [Ha|Ha].
        -- rewrite decide_True; [done|]. apply elem_of_cons. by right.
        -- rewrite decide_False; [done|].
           intros [?|?]%elem_of_cons; done.
    + pose proof (map_size_delete_Some k devices (mk_is_Some _ _ Hd)) as Hpred.
      assert (size devices ≠ 0%nat)
        by (apply map_size_ne_0_lookup_2 with k; eauto).
      lia.
Qed.

Section pruning_facts.
Context {C : Consts}.

(** The loop over the table splits it: the stale records go to the prune
    list, the stamps of the other eligible records to [prunable_stamps]. *)
Lemma prune_scan_foldl now primos items prune_list prunable_stamps :
  foldl (prune_scan now primos) (prune_list, prunable_stamps) items
  = (prune_list
     ++ (filter (λ item, prune_eligible primos item.1 item.2
                         && prune_stale now item.2) items).*1,
     foldl (λ stamps item, <[item.1 := Device.last_seen item.2]> stamps)
       prunable_stamps
       (filter (λ item, prune_eligible primos item.1 item.2
                        && negb (prune_stale now item.2)) items)).
Proof.
  revert prune_list prunable_stamps.
  induction items as [|[a d] items IH]; intros prune_list prunable_stamps.
  { simpl. by rewrite app_nil_r. }
  cbn [foldl].
  destruct (prune_scan now primos (prune_list, prunable_stamps) (a, d))
    as [prune_list' prunable_stamps'] eqn:Hstep.
  rewrite IH, !filter_cons. clear IH. revert Hstep.
  unfold prune_scan, prune_stale, prune_window. cbn [fst snd].
  destruct (prune_eligible primos a d); simpl; [|by intros [= <- <-]].
  destruct (bool_decide (Device.address_type d = BDADDR_TYPE_PRIVATE_RESOLVABLE));
    (destruct (bool_decide (Device.last_seen d < now - _)%Qc); simpl;
     intros [= <- <-]; [by rewrite <- app_assoc|done]).
Qed.
End pruning_facts.

Section prunable_stamps_facts.

Lemma prunable_stamps_fresh (l : list (string * Device.t)) k :
  k ∉ l.*1 →
  foldl (λ stamps item, <[item.1 := Device.last_seen item.2]> stamps)
    (∅ : gmap string Qc) l !! k = None.
Proof.
  induction l as [|item l IH] using rev_ind; intros Hk; [done|].
  rewrite foldl_snoc, fmap_app, not_elem_of_app in *.
  destruct Hk as [Hk Hitem]. rewrite lookup_insert_ne; [by apply IH|].
  intros Heq. apply Hitem. simpl. rewrite <- Heq. apply elem_of_cons. by left.
Qed.

(** With every key once, the dict of stamps holds one entry for each record. *)
Lemma prunable_stamps_items (l : list (string * Device.t)) :
  NoDup l.*1 →
  map_to_list
    (foldl (λ stamps item, <[item.1 := Device.last_seen item.2]> stamps)
       (∅ : gmap string Qc) l)
  ≡ₚ (λ item, (item.1, Device.last_seen item.2)) <$> l.
Proof.
  induction l as [|item l IH] using rev_ind; intros Hdup.
  { simpl. by rewrite map_to_list_empty. }
  rewrite fmap_app in Hdup. apply NoDup_app in Hdup as (Hdup & Hitem & _).
  rewrite foldl_snoc, fmap_app.
  rewrite map_to_list_insert.
  - rewrite IH by done. simpl. by rewrite Permutation_app_comm.
  - apply prunable_stamps_fresh. intros Hin. apply (Hitem _ Hin).
    simpl. apply elem_of_cons. by left.
Qed.
End prunable_stamps_facts.

Section prune_list_facts.
Context {C : Consts}.

Lemma elem_of_stale_records now self a d :
  (a, d) ∈ stale_records now self
  ↔ Coordinator.devices self !! a = Some d
    ∧ prune_eligible (metadevice_source_primos self) a d = true
    ∧ prune_stale now d = true.
Proof.
  unfold stale_records. rewrite list_elem_of_filter, elem_of_map_to_list.
  simpl. rewrite andb_True, !Is_true_true. tauto.
Qed.

Lemma elem_of_fresh_records now self a d :
  (a, d) ∈ fresh_records now self
  ↔ Coordinator.devices self !! a = Some d
    ∧ prune_eligible (metadevice_source_primos self) a d = true
    ∧ prune_stale now d = false.
Proof.
  unfold fresh_records. rewrite list_elem_of_filter, elem_of_map_to_list.
  simpl. rewrite andb_True, negb_True, Is_true_false, Is_true_true. tauto.
Qed.

Lemma stale_records_NoDup now self : NoDup (stale_records now self).*1.
Proof.
  apply (sublist_NoDup _ (map_to_list (Coordinator.devices self)).*1);
    [apply NoDup_fst_map_to_list|apply fmap_sublist, sublist_filter].
Qed.

Lemma fresh_records_NoDup now self : NoDup (fresh_records now self).*1.
Proof.
  apply (sublist_NoDup _ (map_to_list (Coordinator.devices self)).*1);
    [apply NoDup_fst_map_to_list|apply fmap_sublist, sublist_filter].
Qed.

Lemma sorted_stamps_Permutation now self :
  sorted_stamps now self
  ≡ₚ (λ item, (Device.last_seen item.2, item.1)) <$> fresh_records now self.
Proof.
  unfold sorted_stamps. rewrite merge_sort_Permutation.
  rewrite prunable_stamps_items by apply fresh_records_NoDup.
  by rewrite <- list_fmap_compose.
Qed.


Lemma elem_of_sorted_stamps now self t a :
  (t, a) ∈ sorted_stamps now self
  ↔ ∃ d, (a, d) ∈ fresh_records now self ∧ t = Device.last_seen d.
Proof.
  rewrite sorted_stamps_Permutation, list_elem_of_fmap. split.
  - intros ([a' d] & [= -> ->] & Hin). eauto.
  - intros (d & Hin & ->). by exists (a, d).
Qed.

Lemma sorted_stamps_keys now self :
  (sorted_stamps now self).*2 ≡ₚ (fresh_records now self).*1.
Proof.
  by rewrite sorted_stamps_Permutation, <- list_fmap_compose.
Qed.

(** The prune list: the keys of the stale records, then the first [quota]
    addresses of the sorted stamps when the quota is positive. *)
Lemma prune_list_of_eq now self :
  let quota :=
    (Z.of_nat (size (Coordinator.devices self))
     - Z.of_nat (length (stale_records now self)) - PRUNE_MAX_COUNT)%Z in
  prune_list_of now self
  = (stale_records now self).*1
    ++ (take (Z.to_nat quota) (sorted_stamps now self)).*2.
Proof.
  intros quota. unfold prune_list_of.
  rewrite prune_scan_foldl. cbn [app]. rewrite length_fmap.
  fold (stale_records now self) (fresh_records now self).
  fold quota. fold (sorted_stamps now self).
  case_bool_decide as Hquota; [done|].
  replace (Z.to_nat quota) with 0%nat by lia. by rewrite app_nil_r.
Qed.
End prune_list_facts.

Section prune_devices_facts.
Context {C : Consts}.

Lemma elem_of_sorted_prefix now self n a :
  a ∈ (take n (sorted_stamps now self)).*2 →
  ∃ d, (a, d) ∈ fresh_records now self
       ∧ (Device.last_seen d, a) ∈ take n (sorted_stamps now self).
Proof.
  intros ([t a'] & -> & Hin)%list_elem_of_fmap. simpl.
  pose proof Hin as (i & Hi & _)%elem_of_take.
  apply list_elem_of_lookup_2, elem_of_sorted_stamps in Hi as (d & Hd & ->).
  eauto.
Qed.

Lemma prune_list_of_NoDup now self : NoDup (prune_list_of now self).
Proof.
  rewrite prune_list_of_eq. apply NoDup_app. split; [|split].
  - apply stale_records_NoDup.
  - intros a ([a' d] & -> & Hstale)%list_elem_of_fmap Hextra.
    apply elem_of_sorted_prefix in Hextra as (d' & Hfresh & _).
    apply elem_of_stale_records in Hstale as (Hd & _ & Hold).
    apply elem_of_fresh_records in Hfresh as (Hd' & _ & Hnew).
    simpl in Hd'. rewrite Hd in Hd'. injection Hd' as <-. congruence.
  - rewrite fmap_take.
    apply (sublist_NoDup _ (sorted_stamps now self).*2); [|apply sublist_take].
    rewrite sorted_stamps_keys. apply fresh_records_NoDup.
Qed.

Lemma prune_list_of_eligible now self a :
  a ∈ prune_list_of now self →
  ∃ d, Coordinator.devices self !! a = Some d
       ∧ prune_eligible (metadevice_source_primos self) a d = true.
Proof.
  rewrite prune_list_of_eq.
  intros [([a' d] & -> & Hstale)%list_elem_of_fmap|Hextra]%elem_of_app.
  - apply elem_of_stale_records in Hstale as (Hd & Heligible & _). eauto.
  - apply elem_of_sorted_prefix in Hextra as (d & Hfresh & _).
    apply elem_of_fresh_records in Hfresh as (Hd & Heligible & _). eauto.
Qed.

Lemma prune_list_of_stale now self a d :
  Coordinator.devices self !! a = Some d →
  prune_eligible (metadevice_source_primos self) a d = true →
  prune_stale now d = true →
  a ∈ prune_list_of now self.
Proof.
  intros Hd Heligible Hold. rewrite prune_list_of_eq.
  apply elem_of_app. left. apply list_elem_of_fmap. exists (a, d).
  split; [done|]. by apply elem_of_stale_records.
Qed.

Lemma length_prune_list_of now self :
  let quota :=
    (Z.of_nat (size (Coordinator.devices self))
     - Z.of_nat (length (stale_records now self)) - PRUNE_MAX_COUNT)%Z in
  length (prune_list_of now self)
  = (length (stale_records now self)
     + Z.to_nat quota `min` length (fresh_records now self))%nat.
Proof.
  intros quota. rewrite prune_list_of_eq. fold quota.
  rewrite length_app, !length_fmap, length_take.
  by rewrite (Permutation_length (sorted_stamps_Permutation now self)),
    length_fmap.
Qed.

End prune_devices_facts.




(** * Further properties of the modelled code *)

(** ** trilateration.py *)

(** X1.  When the first position is a tuple, [trilaterate] raises whatever
    the other positions and the distances are (a lone position fails to
    broadcast, missing distances fail to index, a distance may be too large
    to square, and otherwise the tuple has no [**]); so
    [perform_trilateration] leaves a device whose first usable scanner
    position is a tuple as it is. *)
Theorem trilaterate_tuple_first_never_returns (C : Consts) (P : Platform)
    (x y : Qc) (rest : list position) :
  (∀ distances, ∃ e, trilaterate (PyTuple x y :: rest) distances = Raise e)
  ∧ (∀ self device,
       (usable_contacts self device).*1 = PyTuple x y :: rest →
       perform_trilateration self device = device).
Proof.
  assert (Hraise : ∀ distances,
            ∃ e, trilaterate (PyTuple x y :: rest) distances = Raise e).
  { intros distances. destruct rest as [|p rest]; [by exists ValueError|].
    destruct distances as [|d0 [|d1 distances]]; [by exists IndexError| |].
    - exists (if float_overflows (d0 * d0) then OverflowError else IndexError).
      unfold trilaterate, linear_system, matrix_A, vector_b.
      cbn [Py.index lookup list_lookup Py.bind drop length Nat.sub seq
           Py.comprehension].
      unfold entry_b at 1, float_square.
      cbn [Py.index lookup list_lookup Py.bind].
      by destruct (float_overflows (d0 * d0)).
    - rewrite trilaterate_tuple_head. by eexists. }
  split; [done|]. intros self device Hfirst.
  destruct (Hraise (usable_contacts self device).*2) as [e He].
  apply (perform_trilateration_caught self device e). by rewrite Hfirst.
Qed.

Lemma comprehension_Return {A B} (f : A → outcome B) l ys :
  Py.comprehension f l = Return ys →
  length ys = length l
  ∧ ∀ i x y, l !! i = Some x → ys !! i = Some y → f x = Return y.
Proof.
  revert ys. induction l as [|x l IH]; intros ys; simpl.
  - intros [= <-]. split; [done|]. by intros i x y ?.
  - intros (y & Hy & (ys' & Hys' & [= <-])%bind_Return)%bind_Return.
    destruct (IH ys' Hys') as [Hlen Hall]. split; [simpl; by rewrite Hlen|].
    intros [|i] x' y'; simpl.
    + by intros [= <-] [= <-].
    + apply Hall.
Qed.

Lemma dec_two : dec 2 1 = (Q2Qc 1 + Q2Qc 1)%Qc.
Proof. qc_compute. Qed.

Lemma float_square_Return x r : float_square x = Return r → (x * x)%Qc = r.
Proof.
  unfold float_square. destruct (float_overflows (x * x)); [done|].
  by intros [= <-].
Qed.

(** X2.  When [trilaterate] gets as far as the solver, the system it hands
    over has one row and one entry for each position after the first, and it
    is the right one: a point whose distance to every scanner is the given
    distance (in squares) solves every equation, [A_i . point = b_i]. *)
Theorem linear_system_consistent (positions : list position)
    (distances : list Qc) (A : list (Qc * Qc)) (b : list Qc) (px py : Qc) :
  linear_system positions distances = Return (A, b) →
  (∀ i p d, positions !! i = Some p → distances !! i = Some d →
     (d * d = (px - coord0 p) * (px - coord0 p)
              + (py - coord1 p) * (py - coord1 p))%Qc) →
  length A = (length positions - 1)%nat
  ∧ length b = (length positions - 1)%nat
  ∧ ∀ i row entry, A !! i = Some row → b !! i = Some entry →
      (row.1 * px + row.2 * py = entry)%Qc.
Proof.
  intros Hsystem Hdistances. unfold linear_system in Hsystem.
  apply bind_Return in Hsystem as (A' & HA & (b' & Hb & [= <- <-])%bind_Return).
  unfold matrix_A in HA. apply bind_Return in HA as (p0 & Hp0 & HA).
  apply index_Return in Hp0.
  assert (HA' : A' = (λ p, (dec 2 1 * coord0 p - dec 2 1 * coord0 p0,
                             dec 2 1 * coord1 p - dec 2 1 * coord1 p0)%Qc)
                     <$> drop 1 positions).
  { destruct (drop 1 positions); [done|]. by injection HA. }
  subst A'. clear HA.
  apply comprehension_Return in Hb as [Hlen Hentries].
  rewrite length_seq in Hlen.
  split; [by rewrite length_fmap, length_drop|]. split; [done|].
  intros i row entry Hrow Hentry.
  apply list_lookup_fmap_Some in Hrow as (p & -> & Hp).
  rewrite lookup_drop in Hp.
  assert (Hi : seq 1 (length positions - 1) !! i = Some (1 + i)%nat).
  { apply lookup_seq. split; [done|]. apply lookup_lt_Some in Hentry. lia. }
  specialize (Hentries i _ _ Hi Hentry). unfold entry_b in Hentries.
  apply bind_Return in Hentries as (d0 & Hd0%index_Return & Hentries).
  apply bind_Return in Hentries as (d0_squared & <-%float_square_Return & Hentries).
  apply bind_Return in Hentries as (di & Hdi%index_Return & Hentries).
  apply bind_Return in Hentries as (di_squared & <-%float_square_Return & Hentries).
  apply bind_Return in Hentries as (p0' & Hp0'%index_Return & Hentries).
  apply bind_Return in Hentries as (s0 & Hs0 & Hentries).
  apply bind_Return in Hentries as (p' & Hp'%index_Return & Hentries).
  apply bind_Return in Hentries as (si & Hsi & [= <-]).
  rewrite Hp0 in Hp0'. injection Hp0' as <-.
  rewrite Hp in Hp'. injection Hp' as <-.
  pose proof (Hdistances 0%nat p0 d0 Hp0 Hd0) as H0.
  pose proof (Hdistances (1 + i)%nat p di Hp Hdi) as H1.
  destruct p0 as [x0 y0|x0 y0]; [done|]. destruct p as [x1 y1|x1 y1]; [done|].
  injection Hs0 as <-. injection Hsi as <-. simpl in *.
  rewrite H0, H1, dec_two. ring.
Qed.

(** Scanners on a circle of radius 5 around (3,4). *)
Lemma linear_system_consistent_witness :
  ∃ A b,
    linear_system Samples.circle_arrays [Qc_of_Z 5; Qc_of_Z 5; Qc_of_Z 5]
    = Return (A, b)
    ∧ length A = 2%nat
    ∧ ∀ i row entry, A !! i = Some row → b !! i = Some entry →
        (row.1 * Qc_of_Z 3 + row.2 * Qc_of_Z 4 = entry)%Qc.
Proof.
  eexists _, _. split; [reflexivity|].
  refine (let H := linear_system_consistent Samples.circle_arrays
                     [Qc_of_Z 5; Qc_of_Z 5; Qc_of_Z 5] _ _ (Qc_of_Z 3)
                     (Qc_of_Z 4) eq_refl _ in conj (proj1 H) (proj2 (proj2 H))).
  intros [|[|[|i]]] p d; simpl; try done; intros [= <-] [= <-]; qc_compute.
Defined.

(** ** The distance model *)

(** X3.  [update_path_loss_factor] is exponential smoothing towards the
    measured loss: after [n] calls with the same measured loss [m] the factor
    of the link is [m + 0.9 ^ n x (old - m)], where [old] is the factor before
    (2.0 for a new link); a factor equal to the measured loss stays put. *)
Theorem update_path_loss_factor_converges (device scanner : Device.t)
    (measured_loss : Qc) (self : Coordinator.t) (n : nat) :
  let key := path_key device scanner in
  let old := default (dec 2 1) (Coordinator.path_loss_factors self !! key) in
  let after :=
    update_path_loss_factor_times n device scanner measured_loss self in
  default (dec 2 1) (Coordinator.path_loss_factors after !! key)
  = (measured_loss + Qcpower (dec 9 10) n * (old - measured_loss))%Qc.
Proof.
  intros key old after. subst after. induction n as [|n IH].
  - simpl. fold key old. generalize old. intros. ring.
  - unfold update_path_loss_factor_times in *. rewrite Nat.iter_succ.
    unfold update_path_loss_factor at 1. cbn [snd Coordinator.path_loss_factors
      Coordinator.with_path_loss_factors].
    fold key. rewrite lookup_insert_eq. cbn [default option_rect from_option].
    rewrite IH, alpha_complement. simpl.
    replace (dec 1 10) with (Q2Qc 1 - dec 9 10)%Qc by qc_compute.
    generalize (dec 9 10 ^ n)%Qc (dec 9 10). intros. ring.
Qed.

(** X4.  [calculate_path_loss_factor] writes at most once: the first call on
    a new link records the default, a second call is a pure read that answers
    the same factor, the factors of the other links are never touched, and a
    later [update_path_loss_factor] cannot tell whether the default had been
    recorded or not. *)
Theorem calculate_path_loss_factor_records (device scanner : Device.t)
    (self : Coordinator.t) :
  let key := path_key device scanner in
  let first := calculate_path_loss_factor device scanner self in
  calculate_path_loss_factor device scanner first.2 = first
  ∧ (∀ other, other ≠ key →
       Coordinator.path_loss_factors first.2 !! other
       = Coordinator.path_loss_factors self !! other)
  ∧ (∀ measured_loss,
       update_path_loss_factor device scanner measured_loss first.2
       = update_path_loss_factor device scanner measured_loss self).
Proof.
  intros key first. subst first.
  unfold calculate_path_loss_factor, update_path_loss_factor. fold key.
  destruct (Coordinator.path_loss_factors self !! key) as [factor|] eqn:Hkey;
    cbn [fst snd Coordinator.path_loss_factors Coordinator.with_path_loss_factors].
  - by rewrite Hkey.
  - rewrite lookup_insert_eq. split; [done|]. split.
    + intros other Hother. by rewrite lookup_insert_ne.
    + intros measured_loss. cbn [default]. by rewrite insert_insert_eq.
Qed.

(** X5.  [get_field_strength_estimate] raises only on a map without entries,
    and then the [ValueError] of [min]; on any other map it returns the
    strength recorded at a sample point that is at least as near to [(x, y)]
    as every other sample point, so that the lookup of the nearest point
    never fails. *)
Theorem get_field_strength_estimate_nearest_sample (P : Platform)
    (self : Coordinator.t) (x y : Qc) :
  match get_field_strength_estimate self x y with
  | Raise e => e = ValueError ∧ Coordinator.obstruction_map self = []
  | Return strength =>
      ∃ point,
        (point, strength) ∈ Coordinator.obstruction_map self
        ∧ ∀ other, other ∈ (Coordinator.obstruction_map self).*1 →
            (hypot (point.1 - x) (point.2 - y)
             ≤ hypot (other.1 - x) (other.2 - y))%Qc
  end.
Proof.
  destruct (decide (Coordinator.obstruction_map self = [])) as [Hmap|Hmap].
  - by rewrite get_field_strength_estimate_empty.
  - destruct (get_field_strength_estimate_nearest self x y Hmap)
      as (point & -> & Hin & Hleast).
    by exists point.
Qed.

Lemma py_min_comm (a b : Qc) : py_min a b = py_min b a.
Proof.
  unfold py_min. repeat case_bool_decide; try done.
  - destruct (irreflexivity Qclt a). by etrans.
  - apply Qcle_antisym; by apply Qcnot_lt_le.
Qed.

Lemma py_max_comm (a b : Qc) : py_max a b = py_max b a.
Proof.
  unfold py_max. repeat case_bool_decide; try done.
  - destruct (irreflexivity Qclt a). by etrans.
  - apply Qcle_antisym; by apply Qcnot_lt_le.
Qed.

(** X6.  The count of wall crossings does not depend on the direction of
    the path: from the device to the scanner or back, the same grid lines
    are sampled on the same two lines through the midpoint, and an
    exception of one direction is the exception of the other. *)
Theorem count_wall_crossings_symmetric (P : Platform) (self : Coordinator.t)
    (start end_ : position) :
  count_wall_crossings self start end_ = count_wall_crossings self end_ start.
Proof.
  unfold count_wall_crossings.
  by rewrite (py_min_comm (coord0 start)), (py_max_comm (coord0 start)),
    (py_min_comm (coord1 start)), (py_max_comm (coord1 start)),
    (Qcplus_comm (coord0 start)), (Qcplus_comm (coord1 start)).
Qed.

(** X7.  A count that [count_wall_crossings] returns is not negative and is
    at most the number of grid lines the two loops visit, one more than the
    difference of the truncated coordinates on either axis. *)
Theorem count_wall_crossings_bounds (P : Platform) (self : Coordinator.t)
    (start end_ : position) (wall_crossings : Z) :
  count_wall_crossings self start end_ = Return wall_crossings →
  let x1 := coord0 start in
  let y1 := coord1 start in
  let x2 := coord0 end_ in
  let y2 := coord1 end_ in
  (0 ≤ wall_crossings
   ≤ (py_int (py_max x1 x2) - py_int (py_min x1 x2) + 1)
     + (py_int (py_max y1 y2) - py_int (py_min y1 y2) + 1))%Z.
Proof.
  intros Hcount x1 y1 x2 y2.
  destruct (decide (Coordinator.obstruction_map self = [])) as [Hmap|Hmap].
  { by rewrite count_wall_crossings_empty in Hcount. }
  unfold count_wall_crossings in Hcount. fold x1 y1 x2 y2 in Hcount.
  rewrite for_each_crossing_x in Hcount by done. simpl in Hcount.
  rewrite for_each_crossing_y in Hcount by done.
  injection Hcount as <-.
  pose proof (py_int_mono _ _ (py_min_le_max x1 x2)) as Hx.
  pose proof (py_int_mono _ _ (py_min_le_max y1 y2)) as Hy.
  pose proof (length_filter (rising_x self ((y1 + y2) / dec 2 1)%Qc)
                (py_range (py_int (py_min x1 x2)) (py_int (py_max x1 x2) + 1)))
    as Hxs.
  pose proof (length_filter (rising_y self ((x1 + x2) / dec 2 1)%Qc)
                (py_range (py_int (py_min y1 y2)) (py_int (py_max y1 y2) + 1)))
    as Hys.
  unfold py_range in *. rewrite length_seqZ in Hxs, Hys. lia.
Qed.

(** The device at (3,4) and the scanner at the origin, on a map of two
    samples: at most 4 + 5 grid lines. *)
Lemma count_wall_crossings_bounds_witness :
  ∃ wall_crossings,
    count_wall_crossings (P := Samples.platform) Samples.mapped_coordinator
      (PyTuple (Qc_of_Z 3) (Qc_of_Z 4)) (PyTuple (Qc_of_Z 0) (Qc_of_Z 0))
    = Return wall_crossings
    ∧ (0 ≤ wall_crossings ≤ 9)%Z.
Proof.
  eexists. split; [by vm_compute|].
  apply (count_wall_crossings_bounds Samples.platform Samples.mapped_coordinator
           (PyTuple (Qc_of_Z 3) (Qc_of_Z 4)) (PyTuple (Qc_of_Z 0) (Qc_of_Z 0))).
  by vm_compute.
Defined.

(** X8.  When the device or the scanner has no [position],
    [apply_path_loss_factor] raises [AttributeError]; by then the factor of
    the link is recorded, since the factor is read before the positions. *)
Theorem apply_path_loss_factor_without_position (P : Platform)
    (self : Coordinator.t) (device scanner : Device.t) :
  Device.position device = None ∨ Device.position scanner = None →
  apply_path_loss_factor device scanner self
  = (Raise AttributeError, (calculate_path_loss_factor device scanner self).2)
  ∧ Coordinator.path_loss_factors (apply_path_loss_factor device scanner self).2
    !! path_key device scanner
    = Some (default (dec 2 1)
              (Coordinator.path_loss_factors self !! path_key device scanner)).
Proof.
  intros Hmissing.
  assert (Hrun : apply_path_loss_factor device scanner self
                 = (Raise AttributeError,
                    (calculate_path_loss_factor device scanner self).2)).
  { unfold apply_path_loss_factor, method_bind, method_read, get_position.
    pose proof (calculate_path_loss_factor_value device scanner self) as Hvalue.
    destruct (calculate_path_loss_factor device scanner self) as [result after].
    simpl in Hvalue. subst result. simpl.
    destruct Hmissing as [->| ->]; [done|].
    by destruct (Device.position device). }
  rewrite Hrun. split; [done|]. apply calculate_path_loss_factor_state.
Qed.

(** A device fresh from its constructor has no position. *)
Lemma apply_path_loss_factor_without_position_witness :
  (apply_path_loss_factor (P := Samples.platform)
     (Samples.blank_device "aa:aa:aa:aa:aa:09" Samples.no_options)
     Samples.origin_scanner Samples.mapped_coordinator).1
  = Raise AttributeError.
Proof.
  refine (f_equal fst
            (proj1 (apply_path_loss_factor_without_position Samples.platform
                      Samples.mapped_coordinator
                      (Samples.blank_device "aa:aa:aa:aa:aa:09" Samples.no_options)
                      Samples.origin_scanner _))).
  by left.
Defined.

(** ** trilateration.py, the array case *)

Lemma comprehension_total {A B} (f : A → outcome B) l :
  (∀ x, x ∈ l → ∃ y, f x = Return y) →
  ∃ ys, Py.comprehension f l = Return ys.
Proof.
  induction l as [|x l IH]; intros Hall; simpl; [by eexists|].
  destruct (Hall x) as [y ->]; [apply elem_of_cons; by left|].
  destruct IH as [ys ->]; [|by eexists].
  intros x' Hx'. apply Hall. apply elem_of_cons. by right.
Qed.

(** X9.  With numpy arrays for positions, at least two of them, and a
    distance for each whose square is within the range of a float,
    [trilaterate] does reach the solver: it returns what [lstsq] answers on
    the system of lines 17-18, [None] included. *)
Theorem trilaterate_arrays_returns (P : Platform) (positions : list position)
    (distances : list Qc) :
  (∀ p, p ∈ positions → ∃ x y, p = NdArray x y) →
  (2 ≤ length positions)%nat →
  (length positions ≤ length distances)%nat →
  (∀ d, d ∈ distances → float_overflows (d * d) = false) →
  ∃ A b,
    linear_system positions distances = Return (A, b)
    ∧ trilaterate positions distances = Return (lstsq A b).
Proof.
  intros Harrays Hpositions Hdistances Hrange.
  assert (Hsystem : ∃ A b, linear_system positions distances = Return (A, b)).
  { unfold linear_system, matrix_A, vector_b.
    destruct positions as [|p0 [|p1 positions]]; [simpl in *; lia..|].
    cbn [Py.index lookup list_lookup Py.bind drop].
    destruct (comprehension_total (entry_b (p0 :: p1 :: positions) distances)
                (seq 1 (length (p0 :: p1 :: positions) - 1))) as [b ->];
      [|by eexists _, _].
    intros i Hi%elem_of_seq. unfold entry_b. simpl in Hi, Hdistances.
    destruct (lookup_lt_is_Some_2 distances 0) as [d0 Hd0]; [lia|].
    destruct (lookup_lt_is_Some_2 distances i) as [di Hdi]; [lia|].
    destruct (lookup_lt_is_Some_2 (p0 :: p1 :: positions) i)
      as [p Hp]; [simpl; lia|].
    destruct (Harrays p0) as (x0 & y0 & ->); [apply elem_of_cons; by left|].
    destruct (Harrays p) as (x & y & ->); [by eapply list_elem_of_lookup_2|].
    unfold Py.index, float_square. rewrite Hd0. cbn [Py.bind].
    rewrite (Hrange d0) by (by eapply list_elem_of_lookup_2).
    rewrite Hdi. cbn [Py.bind].
    rewrite (Hrange di) by (by eapply list_elem_of_lookup_2).
    rewrite Hp. simpl. by eexists. }
  destruct Hsystem as (A & b & Hsystem). exists A, b. split; [done|].
  unfold trilaterate. by rewrite Hsystem.
Qed.

(** Three arrays and three distances. *)
Lemma trilaterate_arrays_returns_witness :
  ∃ A b,
    linear_system Samples.circle_arrays [Qc_of_Z 5; Qc_of_Z 5; Qc_of_Z 5]
    = Return (A, b)
    ∧ trilaterate (P := Samples.platform) Samples.circle_arrays
        [Qc_of_Z 5; Qc_of_Z 5; Qc_of_Z 5]
      = Return (lstsq (Platform := Samples.platform) A b).
Proof.
  apply (trilaterate_arrays_returns Samples.platform Samples.circle_arrays
           [Qc_of_Z 5; Qc_of_Z 5; Qc_of_Z 5]).
  - intros p Hp. unfold Samples.circle_arrays in Hp.
    repeat (apply elem_of_cons in Hp as [->|Hp]; [by eexists _, _|]).
    by apply elem_of_nil in Hp.
  - simpl. lia.
  - simpl. lia.
  - intros d Hd.
    repeat (apply elem_of_cons in Hd as [->|Hd]; [by vm_compute|]).
    by apply elem_of_nil in Hd.
Defined.

(** ** The device table *)

(** X10.  [_get_or_create_device] touches one key of one table.  A record
    that is there is returned as it is and nothing is written; otherwise the
    table grows by exactly one record, stored under the key, whose [address]
    and [unique_id] are the key whatever the constructor has put there.  The
    records under the other keys, and the rest of the coordinator, are as
    before. *)
Theorem get_or_create_device_frame (P : Platform) (address : string)
    (self : Coordinator.t) :
  let key := mac_key address in
  let result := _get_or_create_device address self in
  (∀ k, k ≠ key →
     Coordinator.devices result.2 !! k = Coordinator.devices self !! k)
  ∧ result.2 = Coordinator.with_devices (Coordinator.devices result.2) self
  ∧ match Coordinator.devices self !! key with
    | Some device => result = (device, self)
    | None =>
        Device.address result.1 = key
        ∧ Device.unique_id result.1 = key
        ∧ size (Coordinator.devices result.2)
          = S (size (Coordinator.devices self))
    end.
Proof.
  intros key result. subst result.
  unfold _get_or_create_device, _get_device. fold key.
  destruct (Coordinator.devices self !! key) as [device|] eqn:Hkey; simpl.
  - split; [done|]. split; [by destruct self|done].
  - split; [intros k Hk; by rewrite lookup_insert_ne|].
    split; [done|]. split; [done|]. split; [done|].
    by rewrite map_size_insert_None.
Qed.

(** ** Area by closest scanner *)

Lemma refresh_area_by_min_distance_forgets {C : Consts} {P : Platform}
    (self : Coordinator.t) (device : Device.t) area_id area_name area_distance
    area_rssi area_scanner :
  _refresh_area_by_min_distance self
    (Device.with_area area_id area_name area_distance area_rssi area_scanner
       device)
  = _refresh_area_by_min_distance self device.
Proof. reflexivity. Qed.

(** X11.  [_refresh_area_by_min_distance] raises only its assertion, and only
    on a scanner; on any other device the outcome does not depend on the area
    the device had before, so that a second refresh changes nothing. *)
Theorem refresh_area_by_min_distance_idempotent (C : Consts) (P : Platform)
    (self : Coordinator.t) (device : Device.t) :
  match _refresh_area_by_min_distance self device with
  | Raise e => e = AssertionError ∧ Device.is_scanner device = true
  | Return refreshed =>
      Device.is_scanner device = false
      ∧ _refresh_area_by_min_distance self refreshed = Return refreshed
      ∧ ∀ area_id area_name area_distance area_rssi area_scanner,
          _refresh_area_by_min_distance self
            (Device.with_area area_id area_name area_distance area_rssi
               area_scanner device)
          = Return refreshed
  end.
Proof.
  destruct (_refresh_area_by_min_distance self device) as [refreshed|e]
    eqn:Hrefresh.
  - pose proof Hrefresh as Hshape. unfold _refresh_area_by_min_distance in Hshape.
    destruct (Device.is_scanner device); [done|]. split; [done|].
    split; [|intros; by rewrite refresh_area_by_min_distance_forgets].
    destruct (closest_scanner_of self device); injection Hshape as <-;
      by rewrite refresh_area_by_min_distance_forgets.
  - unfold _refresh_area_by_min_distance in Hrefresh.
    destruct (Device.is_scanner device); [by injection Hrefresh as <-|].
    by destruct (closest_scanner_of self device).
Qed.

(** ** Pruning *)

Section prune_devices_run.
Context {C : Consts}.

(** The deletions of [prune_devices] never fail, and remove the keys of the
    prune list and no other. *)
Lemma prune_devices_run now self :
  ∃ after,
    prune_devices now self = (Return (), Coordinator.with_devices after self)
    ∧ (∀ a, after !! a
            = if decide (a ∈ prune_list_of now self) then None
              else Coordinator.devices self !! a)
    ∧ size (Coordinator.devices self)
      = (size after + length (prune_list_of now self))%nat.
Proof.
  destruct (delete_each_distinct (prune_list_of now self)
              (Coordinator.devices self)) as (after & Hrun & Hafter & Hsize).
  { apply prune_list_of_NoDup. }
  { intros a (d & Hd & _)%prune_list_of_eligible. by exists d. }
  exists after. unfold prune_devices. by rewrite Hrun.
Qed.

(** A record that is not eligible is where it was after [prune_devices]. *)
Lemma prune_devices_keeps now self a d :
  Coordinator.devices self !! a = Some d →
  prune_eligible (metadevice_source_primos self) a d = false →
  Coordinator.devices (prune_devices now self).2 !! a = Some d.
Proof.
  intros Hd Hnot.
  destruct (prune_devices_run now self) as (after & -> & Hafter & _).
  simpl. rewrite Hafter. case_decide as Hin; [|done].
  apply prune_list_of_eligible in Hin as (d' & Hd' & Heligible).
  rewrite Hd in Hd'. injection Hd' as <-. by rewrite Hnot in Heligible.
Qed.
End prune_devices_run.

(** X12.  A second [prune_devices] at the same instant removes nothing: the
    first has taken every stale record, and has either brought the table
    down to the cap or used up the records it may remove. *)
Theorem prune_devices_idempotent (C : Consts) (now : Qc)
    (self : Coordinator.t) :
  prune_devices now (prune_devices now self).2
  = (Return (), (prune_devices now self).2).
Proof.
  destruct (prune_devices_run now self) as (after & Hrun & Hafter & Hsize).
  rewrite Hrun. cbn [snd]. set (self' := Coordinator.with_devices after self).
  assert (Hkept : ∀ a d, Coordinator.devices self' !! a = Some d →
            Coordinator.devices self !! a = Some d
            ∧ a ∉ prune_list_of now self).
  { intros a d Hd. simpl in Hd. rewrite Hafter in Hd. by case_decide. }
  assert (Hstale : stale_records now self' = []).
  { destruct (stale_records now self') as [|[a d] l] eqn:Hl; [done|].
    assert (Hin : (a, d) ∈ stale_records now self')
      by (rewrite Hl; apply elem_of_cons; by left).
    apply elem_of_stale_records in Hin as (Hd & Heligible & Hold).
    apply Hkept in Hd as [Hd Hout]. destruct Hout.
    by eapply prune_list_of_stale. }
  assert (Hlist : prune_list_of now self' = []).
  { rewrite prune_list_of_eq, Hstale. cbn [fmap list_fmap app length].
    pose proof (length_prune_list_of now self) as Hlen. cbn zeta in Hlen.
    destruct (decide (Z.to_nat (Z.of_nat (size (Coordinator.devices self))
                                - Z.of_nat (length (stale_records now self))
                                - PRUNE_MAX_COUNT)
                      ≤ length (fresh_records now self))%nat) as [Hquota|Hquota].
    - replace (Z.to_nat _) with 0%nat; [done|].
      change (Coordinator.devices self') with after. lia.
    - assert (Hfresh : fresh_records now self' = []).
      { destruct (fresh_records now self') as [|[a d] l] eqn:Hl; [done|].
        assert (Hin : (a, d) ∈ fresh_records now self')
          by (rewrite Hl; apply elem_of_cons; by left).
        apply elem_of_fresh_records in Hin as (Hd & Heligible & Hnew).
        apply Hkept in Hd as [Hd Hout]. destruct Hout.
        rewrite prune_list_of_eq. apply elem_of_app. right.
        rewrite take_ge.
        - rewrite sorted_stamps_keys. apply list_elem_of_fmap.
          exists (a, d). split; [done|]. by apply elem_of_fresh_records.
        - rewrite (Permutation_length (sorted_stamps_Permutation now self)),
            length_fmap. lia. }
      pose proof (sorted_stamps_Permutation now self') as Hsorted.
      rewrite Hfresh in Hsorted. apply Permutation_nil_r in Hsorted.
      rewrite Hsorted. by rewrite take_nil. }
  unfold prune_devices. by rewrite Hlist.
Qed.

(** ** Metadevice sources *)

Section store_device_facts.
Context {P : Platform}.

Lemma devices_store_device key device self :
  Coordinator.devices (store_device key device self)
  = <[key := device]> (Coordinator.devices self).
Proof.
  unfold store_device. simpl.
  by destruct (Coordinator.metadevices self !! Device.address device).
Qed.

Lemma metadevices_store_device_tracked key device self :
  is_Some (Coordinator.metadevices self !! Device.address device) →
  Coordinator.metadevices (store_device key device self)
  !! Device.address device = Some device.
Proof.
  intros [tracked Htracked]. unfold store_device. simpl. rewrite Htracked.
  simpl. by rewrite lookup_insert_eq.
Qed.

Lemma metadevices_store_device_keys key device self a :
  is_Some (Coordinator.metadevices self !! a) →
  is_Some (Coordinator.metadevices (store_device key device self) !! a).
Proof.
  intros Ha. unfold store_device. simpl.
  destruct (Coordinator.metadevices self !! Device.address device); [|done].
  simpl. destruct (decide (a = Device.address device)) as [->|Hne].
  - rewrite lookup_insert_eq. by eexists.
  - by rewrite lookup_insert_ne.
Qed.

(** The table after [_get_or_create_device]: the record it returns is under
    the key, the rest is as before. *)
Lemma get_or_create_devices address self :
  Coordinator.devices (_get_or_create_device address self).2
  = <[mac_key address := (_get_or_create_device address self).1]>
      (Coordinator.devices self).
Proof.
  unfold _get_or_create_device, _get_device.
  destruct (Coordinator.devices self !! mac_key address) eqn:Hkey; simpl.
  - by rewrite insert_id.
  - done.
Qed.

Lemma get_or_create_metadevices address self :
  Coordinator.metadevices (_get_or_create_device address self).2
  = Coordinator.metadevices self.
Proof.
  unfold _get_or_create_device, _get_device.
  by destruct (Coordinator.devices self !! mac_key address).
Qed.
End store_device_facts.

Section register_ibeacon_source_facts.
Context {C : Consts} {P : Platform}.

(** What [register_ibeacon_source] leaves in the device table. *)
Lemma register_ibeacon_source_run source_device self beacon_unique_id :
  BEACON_IBEACON_SOURCE ∈ Device.beacon_type source_device →
  Device.beacon_unique_id source_device = Some beacon_unique_id →
  ∃ metadevice,
    Coordinator.devices (register_ibeacon_source source_device self)
    = <[mac_key beacon_unique_id := metadevice]> (Coordinator.devices self)
    ∧ Device.beacon_sources metadevice
      = insert_ibeacon_source (Device.address source_device)
          (Device.beacon_sources
             (_get_or_create_device beacon_unique_id self).1).
Proof.
  intros Hkind Hid. unfold register_ibeacon_source.
  rewrite bool_decide_eq_false_2 by (intros Hnot; by apply Hnot).
  rewrite Hid.
  pose proof (get_or_create_devices beacon_unique_id self) as Hdevices.
  destruct (_get_or_create_device beacon_unique_id self) as [found self1].
  simpl in Hdevices. simpl.
  case_bool_decide as Hempty.
  - eexists. rewrite devices_store_device. split.
    + replace (Coordinator.devices _)
        with (Coordinator.devices self1)
        by (by destruct (Coordinator.metadevices self1 !! _)).
      rewrite Hdevices. apply insert_insert_eq.
    + cbn [Device.beacon_sources Device.with_beacon_sources].
      by case_bool_decide.
  - eexists. rewrite devices_store_device. split.
    + rewrite Hdevices. apply insert_insert_eq.
    + done.
Qed.
End register_ibeacon_source_facts.

(** X13.  [register_ibeacon_source] does nothing for a device that is not an
    iBeacon source or that has no beacon id.  Otherwise it writes one record
    of the device table, the metadevice under the key of the beacon id: a
    source that the metadevice does not have yet goes to the head of its
    sources, a source that it has changes nothing in the list, and the list
    is cut to [HIST_KEEP_COUNT] entries whenever it grows. *)
Theorem register_ibeacon_source_records (C : Consts) (P : Platform)
    (source_device : Device.t) (self : Coordinator.t) :
  let after := register_ibeacon_source source_device self in
  (BEACON_IBEACON_SOURCE ∉ Device.beacon_type source_device
   ∨ Device.beacon_unique_id source_device = None → after = self)
  ∧ ∀ beacon_unique_id,
      BEACON_IBEACON_SOURCE ∈ Device.beacon_type source_device →
      Device.beacon_unique_id source_device = Some beacon_unique_id →
      let key := mac_key beacon_unique_id in
      let before :=
        Device.beacon_sources (_get_or_create_device beacon_unique_id self).1 in
      (∀ k, k ≠ key →
         Coordinator.devices after !! k = Coordinator.devices self !! k)
      ∧ ∃ metadevice,
          Coordinator.devices after !! key = Some metadevice
          ∧ (Device.address source_device ∈ before →
               Device.beacon_sources metadevice = before)
          ∧ (Device.address source_device ∉ before →
               Device.beacon_sources metadevice
               = take HIST_KEEP_COUNT (Device.address source_device :: before))
          ∧ (length (Device.beacon_sources metadevice)
             ≤ HIST_KEEP_COUNT `max` length before)%nat.
Proof.
  intros after. split.
  - subst after. unfold register_ibeacon_source.
    intros [Hkind|Hid].
    + by rewrite bool_decide_eq_true_2.
    + rewrite Hid. by case_bool_decide.
  - intros beacon_unique_id Hkind Hid key before.
    destruct (register_ibeacon_source_run source_device self beacon_unique_id
                Hkind Hid) as (metadevice & Hdevices & Hsources).
    fold after in Hdevices. fold before in Hsources. split.
    + intros k Hk. by rewrite Hdevices, lookup_insert_ne.
    + exists metadevice. rewrite Hdevices, lookup_insert_eq, Hsources.
      unfold insert_ibeacon_source. split; [done|].
      split; [|split].
      * intros Hin. by rewrite bool_decide_eq_false_2 by (intros Hnot; by apply Hnot).
      * intros Hnew. by rewrite bool_decide_eq_true_2.
      * case_bool_decide; [rewrite length_take|]; lia.
Qed.

(** X14.  A bound that holds before [register_ibeacon_source] holds after
    it: when no record of the table has more than [HIST_KEEP_COUNT] sources
    or the same source twice, and the constructor of a device gives it such
    a list, the same is true of every record after the call. *)
Theorem register_ibeacon_source_keeps_bound (C : Consts) (P : Platform)
    (source_device : Device.t) (self : Coordinator.t) :
  let bounded (device : Device.t) :=
    (length (Device.beacon_sources device) ≤ HIST_KEEP_COUNT)%nat
    ∧ NoDup (Device.beacon_sources device) in
  (∀ mac options, bounded (BermudaDevice_init mac options)) →
  (∀ k device, Coordinator.devices self !! k = Some device → bounded device) →
  ∀ k device,
    Coordinator.devices (register_ibeacon_source source_device self) !! k
    = Some device →
    bounded device.
Proof.
  intros bounded Hinit Htable k device Hdevice.
  destruct (decide (BEACON_IBEACON_SOURCE ∈ Device.beacon_type source_device))
    as [Hkind|Hkind]; last first.
  { unfold register_ibeacon_source in Hdevice.
    rewrite bool_decide_eq_true_2 in Hdevice by done. by eapply Htable. }
  destruct (Device.beacon_unique_id source_device) as [beacon_unique_id|]
    eqn:Hid; last first.
  { unfold register_ibeacon_source in Hdevice. rewrite Hid in Hdevice.
    case_bool_decide; by eapply Htable. }
  destruct (register_ibeacon_source_run source_device self beacon_unique_id
              Hkind Hid) as (metadevice & Hdevices & Hsources).
  rewrite Hdevices in Hdevice.
  destruct (decide (k = mac_key beacon_unique_id)) as [->|Hk]; last first.
  { rewrite lookup_insert_ne in Hdevice by done. by eapply Htable. }
  rewrite lookup_insert_eq in Hdevice. injection Hdevice as <-.
  assert (Hbefore : bounded (_get_or_create_device beacon_unique_id self).1).
  { unfold _get_or_create_device, _get_device.
    destruct (Coordinator.devices self !! mac_key beacon_unique_id)
      as [found|] eqn:Hfound; simpl.
    - by eapply Htable.
    - apply Hinit. }
  destruct Hbefore as [Hlen Hdup]. unfold bounded. rewrite Hsources.
  split; [by apply insert_ibeacon_source_bounded|].
  unfold insert_ibeacon_source. case_bool_decide as Hnew; [|done].
  apply (sublist_NoDup _ (Device.address source_device
                          :: Device.beacon_sources
                               (_get_or_create_device beacon_unique_id self).1));
    [by apply NoDup_cons|apply sublist_take].
Qed.

(** The first iBeacon packet of a phone, on an empty table: the metadevice is
    the one record, with the phone as its one source. *)
Lemma register_ibeacon_source_keeps_bound_witness :
  let after :=
    register_ibeacon_source (C := Samples.consts) (P := Samples.platform)
      Samples.ibeacon_phone Samples.empty_coordinator in
  (Device.beacon_sources
     <$> Coordinator.devices after !! "fda50693a4e24fb1afcfc6eb07647825_1_2")
  = Some ["aa:aa:aa:aa:aa:08"]
  ∧ ∀ k device,
      Coordinator.devices after !! k = Some device →
      (length (Device.beacon_sources device)
       ≤ HIST_KEEP_COUNT (Consts := Samples.consts))%nat
      ∧ NoDup (Device.beacon_sources device).
Proof.
  intros after. split; [by vm_compute|].
  apply (register_ibeacon_source_keeps_bound Samples.consts Samples.platform
           Samples.ibeacon_phone Samples.empty_coordinator).
  - intros mac options. split; [simpl; lia|apply NoDup_nil_2].
  - intros k device Hk. simpl in Hk. by rewrite lookup_empty in Hk.
Defined.

Section discover_private_ble_facts.
Context {C : Consts} {P : Platform}.

Lemma add_beacon_type_elem_of kind device :
  kind ∈ Device.beacon_type (add_beacon_type kind device).
Proof.
  unfold add_beacon_type. case_bool_decide; [done|].
  simpl. apply elem_of_cons. by left.
Qed.

Lemma add_beacon_type_keeps kind device :
  Device.address (add_beacon_type kind device) = Device.address device
  ∧ Device.create_sensor (add_beacon_type kind device)
    = Device.create_sensor device
  ∧ Device.name (add_beacon_type kind device) = Device.name device
  ∧ Device.beacon_sources (add_beacon_type kind device)
    = Device.beacon_sources device.
Proof. unfold add_beacon_type. by case_bool_decide. Qed.

(** The private-BLE path leaves the address at the head of the sources. *)
Lemma insert_private_ble_source_head address beacon_sources :
  head (insert_private_ble_source address beacon_sources) = Some address.
Proof.
  unfold insert_private_ble_source. case_bool_decide as Hhead; [done|].
  destruct (decide (head beacon_sources = Some address)) as [|Hne]; [done|].
  destruct Hhead. by right.
Qed.

(** What one round of [discover_private_ble_metadevices] leaves behind. *)
Lemma discover_private_ble_entity_run irk pb_name pb_source_address self :
  let after := discover_private_ble_entity irk pb_name pb_source_address self in
  ∃ metadevice,
    Coordinator.devices after !! mac_key irk = Some metadevice
    ∧ Coordinator.metadevices after !! Device.address metadevice
      = Some metadevice
    ∧ Device.create_sensor metadevice = true
    ∧ Device.name metadevice = pb_name
    ∧ ∀ address, pb_source_address = Some address →
        head (Device.beacon_sources metadevice) = Some (lower address)
        ∧ ∃ source_device,
            Coordinator.devices after !! mac_key (lower address)
            = Some source_device
            ∧ BEACON_PRIVATE_BLE_SOURCE ∈ Device.beacon_type source_device.
Proof.
  intros after. subst after. unfold discover_private_ble_entity.
  destruct (_get_or_create_device irk self) as [found self1].
  set (key := mac_key irk).
  set (metadevice := Device.with_name pb_name
                       (Device.with_create_sensor true found)).
  set (self2 := match Coordinator.metadevices self1 !! Device.address metadevice
                with
                | Some _ => self1
                | None => _
                end).
  assert (Htracked2 : is_Some (Coordinator.metadevices self2
                               !! Device.address metadevice)).
  { subst self2.
    destruct (Coordinator.metadevices self1 !! Device.address metadevice)
      eqn:Htracked; [by rewrite Htracked|].
    simpl. by rewrite lookup_insert_eq. }
  set (self3 := store_device key metadevice self2).
  assert (Hdevice3 : Coordinator.devices self3 !! key = Some metadevice)
    by (subst self3; by rewrite devices_store_device, lookup_insert_eq).
  assert (Htracked3 : Coordinator.metadevices self3 !! Device.address metadevice
                      = Some metadevice)
    by (by apply metadevices_store_device_tracked).
  destruct pb_source_address as [address|]; last first.
  { exists metadevice. by repeat split. }
  set (source_key := mac_key (lower address)).
  pose proof (get_or_create_stored (lower address) self3) as Hstored.
  pose proof (get_or_create_devices (lower address) self3) as Hdevices4.
  pose proof (get_or_create_metadevices (lower address) self3) as Hmeta4.
  assert (Hsame : source_key = key →
            (_get_or_create_device (lower address) self3).1 = metadevice).
  { intros Hkey. unfold source_key in Hkey.
    by rewrite (get_or_create_known (lower address) self3 metadevice)
      by (by rewrite Hkey). }
  destruct (_get_or_create_device (lower address) self3)
    as [source_device self4].
  cbn [fst snd] in Hstored, Hdevices4, Hmeta4, Hsame.
  fold source_key in Hstored, Hdevices4 |- *.
  set (source := add_beacon_type BEACON_PRIVATE_BLE_SOURCE source_device).
  set (self5 := store_device source_key source self4).
  pose proof (add_beacon_type_keeps BEACON_PRIVATE_BLE_SOURCE source_device)
    as (Haddress & Hsensor & Hname & _). fold source in Haddress, Hsensor, Hname.
  assert (Hdevices5 : Coordinator.devices self5
                      = <[source_key := source]> (Coordinator.devices self3)).
  { subst self5. rewrite devices_store_device, Hdevices4.
    apply insert_insert_eq. }
  assert (Hcurrent : ∃ current,
            Coordinator.devices self5 !! key = Some current
            ∧ Device.address current = Device.address metadevice
            ∧ Device.create_sensor current = true
            ∧ Device.name current = pb_name
            ∧ (source_key = key → current = source)).
  { rewrite Hdevices5.
    destruct (decide (source_key = key)) as [Hkey|Hkey].
    - exists source. rewrite Hkey, lookup_insert_eq.
      rewrite Haddress, Hsensor, Hname, (Hsame Hkey). by repeat split.
    - exists metadevice. rewrite lookup_insert_ne by done. by repeat split. }
  destruct Hcurrent as (current & Hcurrent & Hcaddress & Hcsensor & Hcname
                        & Hcsame).
  unfold _get_device. fold key. rewrite Hcurrent.
  set (final := Device.with_beacon_sources _ current).
  assert (Htracked5 : is_Some (Coordinator.metadevices self5
                               !! Device.address final)).
  { subst self5 final. apply metadevices_store_device_keys.
    cbn [Device.address Device.with_beacon_sources].
    rewrite Hmeta4, Hcaddress. by eexists. }
  exists final. split; [by rewrite devices_store_device, lookup_insert_eq|].
  split; [by apply metadevices_store_device_tracked|].
  split; [done|]. split; [done|].
  intros address' [= <-]. split; [apply insert_private_ble_source_head|].
  rewrite devices_store_device. fold source_key.
  destruct (decide (source_key = key)) as [Hkey|Hkey].
  - exists final. rewrite Hkey, lookup_insert_eq. split; [done|].
    subst final. cbn [Device.beacon_type Device.with_beacon_sources].
    rewrite (Hcsame Hkey). apply add_beacon_type_elem_of.
  - exists source. rewrite lookup_insert_ne by done.
    rewrite Hdevices5, lookup_insert_eq. split; [done|].
    apply add_beacon_type_elem_of.
Qed.
End discover_private_ble_facts.

(** X15.  After one round of [discover_private_ble_metadevices] the
    metadevice of the IRK is in the device table and in [metadevices], has
    [create_sensor] set and the name of the registry device; when the tracker
    reports a current address, that address in lower case is the first of the
    metadevice's sources, and its device is in the table and is marked as a
    private-BLE source. *)
Theorem discover_private_ble_entity_tracks (P : Platform) (irk : string)
    (pb_name pb_source_address : option string) (self : Coordinator.t) :
  let after := discover_private_ble_entity irk pb_name pb_source_address self in
  ∃ metadevice,
    _get_device after irk = Some metadevice
    ∧ Coordinator.metadevices after !! Device.address metadevice
      = Some metadevice
    ∧ Device.create_sensor metadevice = true
    ∧ Device.name metadevice = pb_name
    ∧ ∀ address, pb_source_address = Some address →
        head (Device.beacon_sources metadevice) = Some (lower address)
        ∧ ∃ source_device,
            _get_device after (lower address) = Some source_device
            ∧ BEACON_PRIVATE_BLE_SOURCE ∈ Device.beacon_type source_device.
Proof. apply discover_private_ble_entity_run. Qed.

Section primos_facts.
Context {C : Consts}.

(** The first source of a tracked metadevice is one of the [primos]. *)
Lemma elem_of_metadevice_source_primos self key metadevice address :
  Coordinator.metadevices self !! key = Some metadevice →
  head (Device.beacon_sources metadevice) = Some address →
  address ∈ metadevice_source_primos self.
Proof.
  intros Hkey Hhead. unfold metadevice_source_primos.
  apply elem_of_list_to_set, list_elem_of_omap. exists metadevice.
  split; [|done]. apply list_elem_of_fmap. exists (key, metadevice).
  split; [done|]. by apply elem_of_map_to_list.
Qed.
End primos_facts.

(** X16.  What the private-BLE discovery has set up is out of reach of
    [prune_devices], at any time and with any cap: the metadevice stays in
    the table because it has [create_sensor], and the device of the current
    address stays because that address is the first source of a tracked
    metadevice (for an address that is its own key). *)
Theorem private_ble_devices_survive_pruning (C : Consts) (P : Platform)
    (irk address : string) (pb_name : option string) (self : Coordinator.t)
    (now : Qc) :
  mac_key (lower address) = lower address →
  let discovered :=
    discover_private_ble_entity irk pb_name (Some address) self in
  let pruned := (prune_devices now discovered).2 in
  (∃ metadevice,
     _get_device pruned irk = Some metadevice
     ∧ Device.create_sensor metadevice = true
     ∧ head (Device.beacon_sources metadevice) = Some (lower address))
  ∧ ∃ source_device,
      _get_device pruned (lower address) = Some source_device
      ∧ BEACON_PRIVATE_BLE_SOURCE ∈ Device.beacon_type source_device.
Proof.
  intros Hkey discovered pruned.
  destruct (discover_private_ble_entity_run irk pb_name (Some address) self)
    as (metadevice & Hdevice & Htracked & Hsensor & _ & Hsource).
  destruct (Hsource address eq_refl) as (Hhead & source_device & Hsdevice & Hkind).
  fold discovered in Hdevice, Htracked, Hsdevice.
  split.
  - exists metadevice. split; [|done].
    apply prune_devices_keeps; [done|].
    unfold prune_eligible. rewrite Hsensor. simpl.
    by rewrite andb_false_r.
  - exists source_device. split; [|done].
    apply prune_devices_keeps; [done|].
    unfold prune_eligible. rewrite bool_decide_eq_false_2; [done|].
    intros Hnot. apply Hnot. rewrite Hkey.
    by eapply elem_of_metadevice_source_primos.
Qed.

(** The phone last seen at 10 s, which the staleness rule would remove at
    100000 s, is the current address of a private device. *)
Lemma private_ble_devices_survive_pruning_witness :
  let discovered :=
    discover_private_ble_entity (P := Samples.platform)
      "d9a1a2b3c4d5e6f708192a3b4c5d6e7f" (Some "Phone")
      (Some "AA:AA:AA:AA:AA:05") Samples.crowded in
  let pruned :=
    (prune_devices (C := Samples.consts) (Qc_of_Z 100000) discovered).2 in
  Coordinator.devices
    (prune_devices (C := Samples.consts) (Qc_of_Z 100000) Samples.crowded).2
  !! "aa:aa:aa:aa:aa:05" = None
  ∧ ∃ source_device,
      _get_device (P := Samples.platform) pruned (lower "AA:AA:AA:AA:AA:05")
      = Some source_device
      ∧ BEACON_PRIVATE_BLE_SOURCE ∈ Device.beacon_type source_device.
Proof.
  intros discovered pruned. split; [by vm_compute|].
  apply (private_ble_devices_survive_pruning Samples.consts Samples.platform
           "d9a1a2b3c4d5e6f708192a3b4c5d6e7f" "AA:AA:AA:AA:AA:05"
           (Some "Phone") Samples.crowded (Qc_of_Z 100000)).
  by vm_compute.
Defined.
